(** * 2D collision simulator: the physics core, embedded in Rocq

    The development follows the two physics scripts of the repository,
    [2D_Collisions.py] (module [Collisions2D]) and [my_physics2.py]
    (module [MyPhysics2]).  The third script, [bouncing.py] (module
    [Bouncing]), has particles that move and turn around at the edges only.

    Numbers.  The scripts compute with Python floats.  They are idealised
    here as real numbers: [math.cos], [math.sin], [math.hypot] and
    [math.atan2] are the mathematical functions, and [/] raises
    [ZeroDivisionError] exactly when the divisor is zero.  Every concrete
    run used below is chosen so that the float run takes the same branches
    and produces the same values.

    Objects.  A particle is a record; a method that mutates [self] (and
    possibly [p2]) is a function returning the new record(s).  The list of
    particles of a [Simulation] is shared by reference in Python; the
    selected particle is therefore a position in that list.

    Infinities and NaN.  Only the constructors are also given for floats
    that are not finite ([PyFloat]): every other function is stated for
    finite numbers.

    Random numbers.  The particles of a simulation are made from calls of
    [random]; what these calls return is an input of the functions that
    make the particles. *)

From Stdlib Require Import Reals Lra Lia List ZArith.
Import ListNotations.
Open Scope R_scope.

(** ** Exceptions and fallible results *)

Inductive PyError : Type :=
| ZeroDivisionError
| ValueError
| ValidationError.

Inductive Result (A : Type) : Type :=
| Ok (a : A)
| Raise (e : PyError).

Arguments Ok {A} a.
Arguments Raise {A} e.

Definition bind {A B : Type} (m : Result A) (k : A -> Result B) : Result B :=
  match m with
  | Ok a => k a
  | Raise e => Raise e
  end.

Notation "x <- m ;; k" := (bind m (fun x => k))
  (at level 61, m at next level, right associativity).

(** ** The functions of Python's [math] module and float division *)

(** [a / b] on floats. *)
Definition py_div (a b : R) : Result R :=
  if Req_dec_T b 0 then Raise ZeroDivisionError else Ok (a / b).

(** [math.hypot(x, y)]. *)
Definition hypot (x y : R) : R := sqrt (x * x + y * y).

(** [math.atan2(y, x)]: the angle in (-pi, pi] of the point (x, y), and 0
    at the origin. *)
Definition atan2 (y x : R) : R :=
  if Rlt_dec 0 x then atan (y / x)
  else if Rlt_dec x 0 then
         (if Rle_dec 0 y then atan (y / x) + PI else atan (y / x) - PI)
  else if Rlt_dec 0 y then PI / 2
  else if Rlt_dec y 0 then - (PI / 2)
  else 0.

(** Truth value of a number used as a condition ([if c:]). *)
Definition truthy (c : R) : bool :=
  if Req_dec_T c 0 then false else true.

(** A Python float: a finite number, an infinity or a NaN. *)
Inductive PyFloat : Type :=
| Finite (r : R)
| Inf
| NegInf
| NaN.

(** [math.cos(a)] and [math.sin(a)] on any float: a NaN gives a NaN, and an
    infinity raises [ValueError] ("math domain error"). *)
Definition math_cos (a : PyFloat) : Result PyFloat :=
  match a with
  | Finite r => Ok (Finite (cos r))
  | NaN => Ok NaN
  | Inf | NegInf => Raise ValueError
  end.

Definition math_sin (a : PyFloat) : Result PyFloat :=
  match a with
  | Finite r => Ok (Finite (sin r))
  | NaN => Ok NaN
  | Inf | NegInf => Raise ValueError
  end.

(** An infinity times a finite number [r]: the sign follows the sign of
    [r], and zero gives a NaN. *)
Definition inf_times (positive : bool) (r : R) : PyFloat :=
  if Rlt_dec 0 r then (if positive then Inf else NegInf)
  else if Rlt_dec r 0 then (if positive then NegInf else Inf)
  else NaN.

(** [a * b] on any floats; it never raises. *)
Definition float_mul (a b : PyFloat) : PyFloat :=
  match a, b with
  | NaN, _ => NaN
  | _, NaN => NaN
  | Finite x, Finite y => Finite (x * y)
  | Finite x, Inf => inf_times true x
  | Finite x, NegInf => inf_times false x
  | Inf, Finite y => inf_times true y
  | NegInf, Finite y => inf_times false y
  | Inf, Inf => Inf
  | Inf, NegInf => NegInf
  | NegInf, Inf => NegInf
  | NegInf, NegInf => Inf
  end.

(** [lst[i] = v] for an index in range; the loops below only use indices in
    range. *)
Fixpoint list_set {A : Type} (i : nat) (v : A) (l : list A) : list A :=
  match l, i with
  | [], _ => []
  | _ :: t, O => v :: t
  | h :: t, S i' => h :: list_set i' v t
  end.

(** ** [2D_Collisions.py] *)

Module Collisions2D.

(** Simulation constants of the script. *)
Definition NUM_PARTICLES : nat := 10.
Definition ELASTICITY_COEFFICIENT : R := 8 / 10.
Definition DRAG_COEFFICIENT : R := 9999 / 10000.
Definition MOUSE_FLING_COEFFICIENT : R := 1 / 10.

(** *** class Vector *)

Record Vector : Type := mkVector { _x_comp : R; _y_comp : R }.

Definition magnitude (v : Vector) : R := hypot (_x_comp v) (_y_comp v).

Definition unit (v : Vector) : Result Vector :=
  ux <- py_div (_x_comp v) (magnitude v) ;;
  uy <- py_div (_y_comp v) (magnitude v) ;;
  Ok (mkVector ux uy).

(** [__mul__] with a Vector on the right: the dot product. *)
Definition dot (v right : Vector) : R :=
  (_x_comp v * _x_comp right) + (_y_comp v * _y_comp right).

(** [__mul__] with a number on the right. *)
Definition scale (v : Vector) (right : R) : Vector :=
  mkVector (_x_comp v * right) (_y_comp v * right).

(** [__add__]. *)
Definition vadd (v right : Vector) : Vector :=
  mkVector (_x_comp v + _x_comp right) (_y_comp v + _y_comp right).

(** *** class Particle *)

Record Particle : Type := mkParticle {
  _x : R;
  _y : R;
  _color : Z * Z * Z;
  _mass : R;
  _radius : R;
  _speed_x : R;
  _speed_y : R;
  _speed : R;
  _angle : R
}.

(** [Particle.__init__]. *)
Definition Particle_init (position : R * R) (mass radius speed angle : R)
    (color : Z * Z * Z) : Particle :=
  {| _x := fst position;
     _y := snd position;
     _color := color;
     _mass := mass;
     _radius := radius;
     _speed_x := cos angle * speed;
     _speed_y := sin angle * speed;
     _speed := speed;
     _angle := angle |}.

(** The attributes [_x], [_y], [_color], [_mass], [_radius], [_speed_x],
    [_speed_y], [_speed] and [_angle] of an object just constructed, as
    floats that need not be finite. *)
Record Attributes : Type := mkAttributes {
  attr_x : PyFloat;
  attr_y : PyFloat;
  attr_color : Z * Z * Z;
  attr_mass : PyFloat;
  attr_radius : PyFloat;
  attr_speed_x : PyFloat;
  attr_speed_y : PyFloat;
  attr_speed : PyFloat;
  attr_angle : PyFloat
}.

(** The call [Particle(...)] on any floats.  [__init__] has no [raise] and
    checks nothing; its only operations that can raise are [math.cos] and
    [math.sin]. *)
Definition Particle_new (position : PyFloat * PyFloat)
    (mass radius speed angle : PyFloat) (color : Z * Z * Z)
    : Result Attributes :=
  c <- math_cos angle ;;
  let speed_x := float_mul c speed in
  s <- math_sin angle ;;
  let speed_y := float_mul s speed in
  Ok {| attr_x := fst position;
        attr_y := snd position;
        attr_color := color;
        attr_mass := mass;
        attr_radius := radius;
        attr_speed_x := speed_x;
        attr_speed_y := speed_y;
        attr_speed := speed;
        attr_angle := angle |}.

(** The statement [particles.append(Particle(...))]: the list after it,
    and the exception if one was raised. *)
Definition append_Particle (particles : list Attributes)
    (position : PyFloat * PyFloat) (mass radius speed angle : PyFloat)
    (color : Z * Z * Z) : list Attributes * option PyError :=
  match Particle_new position mass radius speed angle color with
  | Ok p => (particles ++ [p], None)
  | Raise e => (particles, Some e)
  end.

(** The attributes of a particle whose numbers are all finite. *)
Definition as_floats (p : Particle) : Attributes :=
  {| attr_x := Finite (_x p);
     attr_y := Finite (_y p);
     attr_color := _color p;
     attr_mass := Finite (_mass p);
     attr_radius := Finite (_radius p);
     attr_speed_x := Finite (_speed_x p);
     attr_speed_y := Finite (_speed_y p);
     attr_speed := Finite (_speed p);
     attr_angle := Finite (_angle p) |}.

(** Assignments to the position and to the velocity attributes. *)
Definition set_pos (p : Particle) (x y : R) : Particle :=
  {| _x := x; _y := y; _color := _color p; _mass := _mass p;
     _radius := _radius p; _speed_x := _speed_x p; _speed_y := _speed_y p;
     _speed := _speed p; _angle := _angle p |}.

Definition set_vel (p : Particle) (sx sy speed angle : R) : Particle :=
  {| _x := _x p; _y := _y p; _color := _color p; _mass := _mass p;
     _radius := _radius p; _speed_x := sx; _speed_y := sy;
     _speed := speed; _angle := angle |}.

Definition _recalculate_speed_components (p : Particle) (new_angle : R)
    (speed_coefficient : option R) : Particle :=
  let speed :=
    match speed_coefficient with
    | Some c => if truthy c then _speed p * c else _speed p
    | None => _speed p
    end in
  set_vel p (cos new_angle * speed) (sin new_angle * speed) speed new_angle.

Definition _overlap_amount (self p2 : Particle) : R :=
  let x_dif := _x self - _x p2 in
  let y_dif := _y self - _y p2 in
  (_radius self + _radius p2) - hypot x_dif y_dif.

Definition _is_colliding (self p2 : Particle) : bool :=
  if Rgt_dec (_overlap_amount self p2) 0 then true else false.

Definition _push_apart (self p2 : Particle) : Particle * Particle :=
  let dist := _overlap_amount self p2 in
  let collision_angle := atan2 (_y self - _y p2) (_x self - _x p2) in
  (set_pos self (_x self + cos collision_angle * dist)
                (_y self + sin collision_angle * dist),
   set_pos p2 (_x p2 - cos collision_angle * dist)
              (_y p2 - sin collision_angle * dist)).

Section Coefficients.

(** The methods read the module constants; they are parameters here so that
    runs with other coefficients can be stated too. *)
Variables (elasticity drag fling : R).

Definition _apply_drag (p : Particle) : Particle :=
  _recalculate_speed_components p (_angle p) (Some drag).

Definition _apply_elasticity (p : Particle) : Particle :=
  _recalculate_speed_components p (_angle p) (Some elasticity).

(** [_bounce]; the surface is given by its size. *)
Definition _bounce (p : Particle) (surface : R * R) : Particle :=
  let (width, height) := surface in
  if Rle_dec (_y p) (_radius p) then
    let p := _recalculate_speed_components p (- _angle p) None in
    let p := set_pos p (_x p) (_y p + 2 * (_radius p - _y p)) in
    _apply_elasticity p
  else if Rge_dec (_y p) (height - _radius p) then
    let p := _recalculate_speed_components p (- _angle p) None in
    let p := set_pos p (_x p) (_y p - 2 * (_y p + _radius p - height)) in
    _apply_elasticity p
  else if Rle_dec (_x p) (_radius p) then
    let p := _recalculate_speed_components p (PI - _angle p) None in
    let p := set_pos p (_x p + 2 * (_radius p - _x p)) (_y p) in
    _apply_elasticity p
  else if Rge_dec (_x p) (width - _radius p) then
    let p := _recalculate_speed_components p (PI - _angle p) None in
    let p := set_pos p (_x p - 2 * (_x p + _radius p - width)) (_y p) in
    _apply_elasticity p
  else p.

Definition move (p : Particle) (surface : R * R) : Particle :=
  let p := set_pos p (_x p + _speed_x p) (_y p + _speed_y p) in
  let p := _bounce p surface in
  _apply_drag p.

Definition follow (p : Particle) (mouse_coodinates : R * R) : Particle :=
  let dx := fst mouse_coodinates - _x p in
  let dy := snd mouse_coodinates - _y p in
  let p := set_vel p (_speed_x p) (_speed_y p) (hypot dx dy) (_angle p) in
  _recalculate_speed_components p (atan2 dy dx) (Some fling).

Definition collide (self p2 : Particle) : Result (Particle * Particle) :=
  if _is_colliding self p2 then
    let n_vec := mkVector (_x self - _x p2) (_y self - _y p2) in
    let t_vec := mkVector (- _y_comp n_vec) (_x_comp n_vec) in
    unit_n_vec <- unit n_vec ;;
    unit_t_vec <- unit t_vec ;;
    let p1_initial_vec := mkVector (_speed_x self) (_speed_y self) in
    let p2_initial_vec := mkVector (_speed_x p2) (_speed_y p2) in
    let p1_initial_norm_comp := dot p1_initial_vec unit_n_vec in
    let p1_tan_comp := dot p1_initial_vec unit_t_vec in
    let p2_initial_norm_comp := dot p2_initial_vec unit_n_vec in
    let p2_tan_comp := dot p2_initial_vec unit_t_vec in
    p1_final_norm_comp <-
      py_div (p1_initial_norm_comp * (_mass self - _mass p2)
              + 2 * _mass p2 * p2_initial_norm_comp)
             (_mass self + _mass p2) ;;
    p2_final_norm_comp <-
      py_div (p2_initial_norm_comp * (_mass p2 - _mass self)
              + 2 * _mass self * p1_initial_norm_comp)
             (_mass self + _mass p2) ;;
    let p1_final_n_vec := scale unit_n_vec p1_final_norm_comp in
    let p2_final_n_vec := scale unit_n_vec p2_final_norm_comp in
    let p1_final_t_vec := scale unit_t_vec p1_tan_comp in
    let p2_final_t_vec := scale unit_t_vec p2_tan_comp in
    let p1_final_vec := vadd p1_final_n_vec p1_final_t_vec in
    let p2_final_vec := vadd p2_final_n_vec p2_final_t_vec in
    let self := set_vel self (_speed_x self) (_speed_y self)
                  (magnitude p1_final_vec)
                  (atan2 (_y_comp p1_final_vec) (_x_comp p1_final_vec)) in
    let self := _recalculate_speed_components self (_angle self) None in
    let p2 := set_vel p2 (_speed_x p2) (_speed_y p2)
                (magnitude p2_final_vec)
                (atan2 (_y_comp p2_final_vec) (_x_comp p2_final_vec)) in
    let p2 := _recalculate_speed_components p2 (_angle p2) None in
    let self := _apply_elasticity self in
    let p2 := _apply_elasticity p2 in
    Ok (_push_apart self p2)
  else Ok (self, p2).

(** *** class Simulation *)

(** [_selected_particle] refers to an element of [_particles]: it is kept
    as the position of that element. *)
Record Simulation : Type := mkSimulation {
  _width : R;
  _height : R;
  _particles : list Particle;
  _selected_particle : option nat
}.

(** The loop of [_select_particle], from position [i] on: the first
    particle hit ends the loop. *)
Fixpoint select_from (i : nat) (ps : list Particle) (coords : R * R)
    : option nat :=
  match ps with
  | [] => None
  | particle :: rest =>
      let dx := fst coords - _x particle in
      let dy := snd coords - _y particle in
      let distance := hypot dx dy in
      if Rle_dec distance (_radius particle) then Some i
      else select_from (S i) rest coords
  end.

Definition _select_particle (sim : Simulation) (coords : R * R) : Simulation :=
  match select_from 0 (_particles sim) coords with
  | Some i => mkSimulation (_width sim) (_height sim) (_particles sim) (Some i)
  | None => sim
  end.

Definition _deselect_particle (sim : Simulation) : Simulation :=
  match _selected_particle sim with
  | Some _ => mkSimulation (_width sim) (_height sim) (_particles sim) None
  | None => sim
  end.

(** [for other_particle in self._particles[index + 1:]: particle.collide(...)],
    the positions after [index] being [js]. *)
Fixpoint collide_rest (index : nat) (js : list nat) (ps : list Particle)
    : Result (list Particle) :=
  match js with
  | [] => Ok ps
  | j :: js' =>
      match nth_error ps index, nth_error ps j with
      | Some particle, Some other_particle =>
          r <- collide particle other_particle ;;
          collide_rest index js'
            (list_set j (snd r) (list_set index (fst r) ps))
      | _, _ => Ok ps
      end
  end.

(** [for index, particle in enumerate(self._particles): ...]. *)
Fixpoint particles_loop (indices : list nat) (surface : R * R)
    (ps : list Particle) : Result (list Particle) :=
  match indices with
  | [] => Ok ps
  | index :: indices' =>
      match nth_error ps index with
      | Some particle =>
          let ps := list_set index (move particle surface) ps in
          ps <- collide_rest index
                  (seq (S index) (length ps - S index)) ps ;;
          particles_loop indices' surface ps
      | None => Ok ps
      end
  end.

(** [_handle_events]; [mouse_pos] is what [pygame.mouse.get_pos()] returns,
    and the surface has the size the simulation was created with. *)
Definition _handle_events (sim : Simulation) (mouse_pos : R * R)
    : Result Simulation :=
  let ps :=
    match _selected_particle sim with
    | Some k =>
        match nth_error (_particles sim) k with
        | Some p => list_set k (follow p mouse_pos) (_particles sim)
        | None => _particles sim
        end
    | None => _particles sim
    end in
  ps <- particles_loop (seq 0 (length ps)) (_width sim, _height sim) ps ;;
  Ok (mkSimulation (_width sim) (_height sim) ps (_selected_particle sim)).

End Coefficients.

(** What one round of the loop of [_generate_particles] draws from
    [random], in the order of the calls: [randint(2, 20)],
    [randint(radius, width - radius)], [randint(radius, height - radius)],
    [uniform(0, 2 * pi)], [random()] and [randint(1, 20)]. *)
Record Draws : Type := mkDraws {
  drawn_radius : Z;
  drawn_pos_x : Z;
  drawn_pos_y : Z;
  drawn_angle : R;
  drawn_speed : R;
  drawn_density : Z
}.

(** [_generate_particles(num)], given the draws of its [num] rounds. *)
Definition _generate_particles (draws : list Draws) : list Particle :=
  map (fun d =>
         let radius := drawn_radius d in
         let pos_x := drawn_pos_x d in
         let pos_y := drawn_pos_y d in
         let angle := drawn_angle d in
         let speed := drawn_speed d in
         let density := drawn_density d in
         Particle_init (IZR pos_x, IZR pos_y)
           (IZR density * PI * IZR (radius ^ 2))
           (IZR radius) speed angle
           (255, 200 - density * 10, 200 - density * 10)%Z)
      draws.

(** [Simulation.__init__]: an 800 x 800 window, the generated particles and
    no selection. *)
Definition Simulation_init (draws : list Draws) : Simulation :=
  mkSimulation 800 800 (_generate_particles draws) None.

(** *** Notions used in the statements *)

(** The draws are values [random] can return for a window of the given
    size. *)
Definition possible_draws (width height : Z) (d : Draws) : Prop :=
  (2 <= drawn_radius d <= 20)%Z /\
  (drawn_radius d <= drawn_pos_x d <= width - drawn_radius d)%Z /\
  (drawn_radius d <= drawn_pos_y d <= height - drawn_radius d)%Z /\
  0 <= drawn_angle d <= 2 * PI /\
  0 <= drawn_speed d < 1 /\
  (1 <= drawn_density d <= 20)%Z.


(** The list with its first [n] particles moved. *)
Fixpoint move_first (elasticity drag : R) (surface : R * R) (n : nat)
    (ps : list Particle) : list Particle :=
  match n, ps with
  | S n', p :: rest =>
      move elasticity drag p surface
      :: move_first elasticity drag surface n' rest
  | _, _ => ps
  end.



(** The two forms of the velocity agree: the components are the speed
    along the angle. *)
Definition consistent (p : Particle) : Prop :=
  _speed_x p = cos (_angle p) * _speed p /\
  _speed_y p = sin (_angle p) * _speed p.

(** Kinetic energy of a particle. *)
Definition kinetic_energy (p : Particle) : R :=
  _mass p * (_speed_x p * _speed_x p + _speed_y p * _speed_y p) / 2.

(** The unit normal and the unit tangent of a collision, as [collide]
    builds them from the two centres. *)
Definition normal (self p2 : Particle) : Vector :=
  mkVector ((_x self - _x p2) / hypot (_x self - _x p2) (_y self - _y p2))
           ((_y self - _y p2) / hypot (_x self - _x p2) (_y self - _y p2)).

Definition tangent (self p2 : Particle) : Vector :=
  mkVector (- (_y self - _y p2) / hypot (_x self - _x p2) (_y self - _y p2))
           ((_x self - _x p2) / hypot (_x self - _x p2) (_y self - _y p2)).

(** The velocity of a particle as a vector. *)
Definition velocity (p : Particle) : Vector :=
  mkVector (_speed_x p) (_speed_y p).

(** Distance between the centres. *)
Definition distance (a b : Particle) : R :=
  hypot (_x a - _x b) (_y a - _y b).

(** Sum over both particles of mass times velocity. *)
Definition total_momentum (a b : Particle) : R * R :=
  (_mass a * _speed_x a + _mass b * _speed_x b,
   _mass a * _speed_y a + _mass b * _speed_y b).

(** The centre lies within [radius, dimension - radius] on both axes. *)
Definition in_bounds (p : Particle) (surface : R * R) : Prop :=
  (_radius p <= _x p <= fst surface - _radius p) /\
  (_radius p <= _y p <= snd surface - _radius p).

(** The click at [coords] is inside the particle. *)
Definition hit (coords : R * R) (p : Particle) : Prop :=
  hypot (fst coords - _x p) (snd coords - _y p) <= _radius p.

(** Mass, radius and colour of a particle. *)
Definition constants (p : Particle) : R * R * (Z * Z * Z) :=
  (_mass p, _radius p, _color p).

(** [p1_final_vec] and [p2_final_vec] of [collide], read off its body with
    every division taken where it is defined. *)
Definition final_vecs (self p2 : Particle) : Vector * Vector :=
  let n_vec := mkVector (_x self - _x p2) (_y self - _y p2) in
  let t_vec := mkVector (- _y_comp n_vec) (_x_comp n_vec) in
  let unit_n_vec :=
    mkVector (_x_comp n_vec / magnitude n_vec)
             (_y_comp n_vec / magnitude n_vec) in
  let unit_t_vec :=
    mkVector (_x_comp t_vec / magnitude t_vec)
             (_y_comp t_vec / magnitude t_vec) in
  let p1_initial_vec := mkVector (_speed_x self) (_speed_y self) in
  let p2_initial_vec := mkVector (_speed_x p2) (_speed_y p2) in
  let p1_initial_norm_comp := dot p1_initial_vec unit_n_vec in
  let p1_tan_comp := dot p1_initial_vec unit_t_vec in
  let p2_initial_norm_comp := dot p2_initial_vec unit_n_vec in
  let p2_tan_comp := dot p2_initial_vec unit_t_vec in
  let p1_final_norm_comp :=
    (p1_initial_norm_comp * (_mass self - _mass p2)
     + 2 * _mass p2 * p2_initial_norm_comp) / (_mass self + _mass p2) in
  let p2_final_norm_comp :=
    (p2_initial_norm_comp * (_mass p2 - _mass self)
     + 2 * _mass self * p1_initial_norm_comp) / (_mass self + _mass p2) in
  (vadd (scale unit_n_vec p1_final_norm_comp) (scale unit_t_vec p1_tan_comp),
   vadd (scale unit_n_vec p2_final_norm_comp) (scale unit_t_vec p2_tan_comp)).

(** The two particles after the call [self.collide(p2)], however it ends:
    every operation of [collide] that can raise ([unit], the two divisions
    by the sum of the masses) comes before its first assignment. *)
Definition after_collide (elasticity : R) (self p2 : Particle)
    : Particle * Particle :=
  match collide elasticity self p2 with
  | Ok r => r
  | Raise _ => (self, p2)
  end.

(** The velocity attributes [collide] gives a particle from its final
    vector, followed by [_apply_elasticity]. *)
Definition with_final_vec (elasticity : R) (p : Particle) (v : Vector)
    : Particle :=
  let p := set_vel p (_speed_x p) (_speed_y p) (magnitude v)
             (atan2 (_y_comp v) (_x_comp v)) in
  let p := _recalculate_speed_components p (_angle p) None in
  _apply_elasticity elasticity p.

End Collisions2D.

(** ** [my_physics2.py] *)

Module MyPhysics2.

(** Global constants of the script. *)
Definition NUM_PARTICLES : nat := 6.
Definition SPEED_COEFFICIENT : R := 1 / 10.
Definition DRAG_COEFFICIENT : R := 9999 / 10000.
Definition ELASTICITY_COEFFICIENT : R := 999 / 1000.
Definition GRAVITY : R := 2 / 1000000.

(** *** class Particle *)

Record Particle : Type := mkParticle {
  x : R;
  y : R;
  radius : R;
  angle : R;
  speed : R
}.

(** [Particle.__init__]. *)
Definition Particle_init (position : R * R) (radius angle speed : R)
    : Particle :=
  {| x := fst position; y := snd position; radius := radius;
     angle := angle; speed := speed |}.

(** The attributes [x], [y], [radius], [angle] and [speed] of an object
    just constructed, as floats that need not be finite. *)
Record Attributes : Type := mkAttributes {
  attr_x : PyFloat;
  attr_y : PyFloat;
  attr_radius : PyFloat;
  attr_angle : PyFloat;
  attr_speed : PyFloat
}.

(** The call [Particle(...)] on any floats: [__init__] only stores its
    arguments. *)
Definition Particle_new (position : PyFloat * PyFloat)
    (radius angle speed : PyFloat) : Result Attributes :=
  Ok {| attr_x := fst position; attr_y := snd position;
        attr_radius := radius; attr_angle := angle; attr_speed := speed |}.

(** The statement [self._particles.append(Particle(...))]. *)
Definition append_Particle (particles : list Attributes)
    (position : PyFloat * PyFloat) (radius angle speed : PyFloat)
    : list Attributes * option PyError :=
  match Particle_new position radius angle speed with
  | Ok p => (particles ++ [p], None)
  | Raise e => (particles, Some e)
  end.

(** The attributes of a particle whose numbers are all finite. *)
Definition as_floats (p : Particle) : Attributes :=
  {| attr_x := Finite (x p); attr_y := Finite (y p);
     attr_radius := Finite (radius p); attr_angle := Finite (angle p);
     attr_speed := Finite (speed p) |}.

Section Coefficients.

Variables (elasticity drag gravity speed_coefficient : R).

Definition apply_elasticity (p : Particle) : Particle :=
  mkParticle (x p) (y p) (radius p) (angle p) (speed p * elasticity).

Definition _apply_drag (p : Particle) : Particle :=
  mkParticle (x p) (y p) (radius p) (angle p) (speed p * drag).

Definition _apply_gravity (p : Particle) : Particle :=
  let particle_x_component := cos (angle p) * speed p in
  let particle_y_component := sin (angle p) * speed p in
  let grav_x_component := cos (- PI / 2) * gravity in
  let grav_y_component := sin (- PI / 2) * gravity in
  let new_x_comp := particle_x_component + grav_x_component in
  let new_y_comp := particle_y_component + grav_y_component in
  mkParticle (x p) (y p) (radius p)
    (atan2 new_y_comp new_x_comp) (hypot new_x_comp new_y_comp).

Definition move (p : Particle) : Particle :=
  let p := _apply_drag p in
  let p := _apply_gravity p in
  let dx := cos (angle p) in
  let dy := - sin (angle p) in
  mkParticle (x p + dx * speed p) (y p + dy * speed p)
    (radius p) (angle p) (speed p).

Definition bounce (p : Particle) (window_dimensions : R * R) : Particle :=
  let (width, height) := window_dimensions in
  let p :=
    if Rle_dec (x p) (radius p) then
      apply_elasticity
        (mkParticle (x p + 2 * (radius p - x p)) (y p) (radius p)
           (PI - angle p) (speed p))
    else if Rge_dec (x p) (width - radius p) then
      apply_elasticity
        (mkParticle (x p - 2 * (x p + radius p - width)) (y p) (radius p)
           (PI - angle p) (speed p))
    else p in
  if Rle_dec (y p) (radius p) then
    apply_elasticity
      (mkParticle (x p) (y p + 2 * (radius p - y p)) (radius p)
         (- angle p) (speed p))
  else if Rge_dec (y p) (height - radius p) then
    apply_elasticity
      (mkParticle (x p) (y p - 2 * (y p + radius p - height)) (radius p)
         (- angle p) (speed p))
  else p.

Definition collide (self p2 : Particle) : Particle * Particle :=
  let dx := x self - x p2 in
  let dy := - (y self - y p2) in
  let dist := hypot dx dy in
  if Rle_dec dist (radius self + radius p2) then
    let angle_collision := atan2 dy dx in
    let tangent_angle := angle_collision + (PI / 2) in
    let self_angle := - angle self + 2 * tangent_angle in
    let p2_angle := - angle p2 + 2 * tangent_angle in
    let self_speed := speed p2 in
    let p2_speed := speed self in
    let overlap_amnt := radius self + radius p2 - dist in
    let self' :=
      mkParticle (x self + cos angle_collision * overlap_amnt / 2)
                 (y self - sin angle_collision * overlap_amnt / 2)
                 (radius self) self_angle self_speed in
    let p2' :=
      mkParticle (x p2 - cos angle_collision * overlap_amnt / 2)
                 (y p2 + sin angle_collision * overlap_amnt / 2)
                 (radius p2) p2_angle p2_speed in
    (apply_elasticity self', apply_elasticity p2')
  else (self, p2).

Definition follow (p : Particle) (mouse_coords : R * R) : Particle :=
  let (mouseX, mouseY) := mouse_coords in
  let dx := mouseX - x p in
  let dy := - (mouseY - y p) in
  mkParticle (x p) (y p) (radius p)
    (atan2 dy dx) (hypot dx dy * speed_coefficient).

(** *** class Simulation *)

Record Simulation : Type := mkSimulation {
  _particles : list Particle;
  _width : R;
  _height : R;
  _selected_particle : option nat
}.

(** The loop of [_select_particle], from position [i] on, [selected] being
    the selection so far: every particle hit overwrites it, and the loop
    runs to the end of the list. *)
Fixpoint select_from (i : nat) (ps : list Particle) (mouse_coodinates : R * R)
    (selected : option nat) : option nat :=
  match ps with
  | [] => selected
  | particle :: rest =>
      let (mouseX, mouseY) := mouse_coodinates in
      let dx := mouseX - x particle in
      let dy := mouseY - y particle in
      let dist := hypot dx dy in
      if Rle_dec dist (radius particle)
      then select_from (S i) rest mouse_coodinates (Some i)
      else select_from (S i) rest mouse_coodinates selected
  end.

Definition _select_particle (sim : Simulation) (mouse_coodinates : R * R)
    : Simulation :=
  mkSimulation (_particles sim) (_width sim) (_height sim)
    (select_from 0 (_particles sim) mouse_coodinates (_selected_particle sim)).

Fixpoint collide_rest (index : nat) (js : list nat) (ps : list Particle)
    : list Particle :=
  match js with
  | [] => ps
  | j :: js' =>
      match nth_error ps index, nth_error ps j with
      | Some particle, Some other_particle =>
          let r := collide particle other_particle in
          collide_rest index js'
            (list_set j (snd r) (list_set index (fst r) ps))
      | _, _ => ps
      end
  end.

Fixpoint particles_loop (indices : list nat) (dims : R * R)
    (ps : list Particle) : list Particle :=
  match indices with
  | [] => ps
  | index :: indices' =>
      match nth_error ps index with
      | Some particle =>
          let ps := list_set index (bounce (move particle) dims) ps in
          let ps := collide_rest index
                      (seq (S index) (length ps - S index)) ps in
          particles_loop indices' dims ps
      | None => ps
      end
  end.

Definition _handle_events (sim : Simulation) (mouse_pos : R * R)
    : Simulation :=
  let ps :=
    match _selected_particle sim with
    | Some k =>
        match nth_error (_particles sim) k with
        | Some p => list_set k (follow p mouse_pos) (_particles sim)
        | None => _particles sim
        end
    | None => _particles sim
    end in
  mkSimulation
    (particles_loop (seq 0 (length ps)) (_width sim, _height sim) ps)
    (_width sim) (_height sim) (_selected_particle sim).

End Coefficients.

(** What one round of the loop of [_create_particles] draws from [random],
    in the order of the calls: [uniform(0, 2 * pi)], [random()],
    [randint(10, 20)], [randint(1, 20)] (the density, which is not used),
    [randint(radius, width - radius)] and [randint(radius, height - radius)]. *)
Record Draws : Type := mkDraws {
  drawn_angle : R;
  drawn_speed : R;
  drawn_radius : Z;
  drawn_density : Z;
  drawn_x : Z;
  drawn_y : Z
}.

(** [_create_particles(n)], given the draws of its [n] rounds: the new
    particles are appended to the list. *)
Definition _create_particles (particles : list Particle) (draws : list Draws)
    : list Particle :=
  particles ++
  map (fun d =>
         Particle_init (IZR (drawn_x d), IZR (drawn_y d))
           (IZR (drawn_radius d)) (drawn_angle d) (drawn_speed d))
      draws.

(** [Simulation.__init__]. *)
Definition Simulation_init (draws : list Draws) : Simulation :=
  mkSimulation (_create_particles [] draws) 800 800 None.

(** *** Notions used in the statements *)

(** The draws are values [random] can return for a window of the given
    size. *)
Definition possible_draws (width height : Z) (d : Draws) : Prop :=
  0 <= drawn_angle d <= 2 * PI /\
  0 <= drawn_speed d < 1 /\
  (10 <= drawn_radius d <= 20)%Z /\
  (1 <= drawn_density d <= 20)%Z /\
  (drawn_radius d <= drawn_x d <= width - drawn_radius d)%Z /\
  (drawn_radius d <= drawn_y d <= height - drawn_radius d)%Z.

(** The centre lies within [radius, dimension - radius] on both axes. *)
Definition in_bounds (p : Particle) (dims : R * R) : Prop :=
  (radius p <= x p <= fst dims - radius p) /\
  (radius p <= y p <= snd dims - radius p).

(** Distance between the centres. *)
Definition distance (a b : Particle) : R :=
  hypot (x a - x b) (y a - y b).

(** The displacement [move] gives a particle per tick, on the screen axes. *)
Definition velocity (p : Particle) : R * R :=
  (cos (angle p) * speed p, - sin (angle p) * speed p).

(** The click at [coords] is inside the particle. *)
Definition hit (coords : R * R) (p : Particle) : Prop :=
  hypot (fst coords - x p) (snd coords - y p) <= radius p.


End MyPhysics2.

(** ** [bouncing.py] *)

Module Bouncing.

(** *** class Particle *)

Record Particle : Type := mkParticle {
  _x : R;
  _y : R;
  _size : R;
  _color : Z * Z * Z;
  _thickness : Z;
  _speed : R;
  _angle : R
}.

(** [Particle.__init__]. *)
Definition Particle_init (pos : R * R) (size angle speed : R) : Particle :=
  {| _x := fst pos; _y := snd pos; _size := size;
     _color := (0, 0, 255)%Z; _thickness := 1%Z;
     _speed := speed; _angle := angle |}.

Definition set_angle (p : Particle) (angle : R) : Particle :=
  mkParticle (_x p) (_y p) (_size p) (_color p) (_thickness p) (_speed p)
    angle.

Definition move (p : Particle) : Particle :=
  mkParticle (_x p + cos (_angle p) * _speed p)
             (_y p - sin (_angle p) * _speed p)
             (_size p) (_color p) (_thickness p) (_speed p) (_angle p).

(** The chained comparison [lo <= v <= hi]. *)
Definition between (lo v hi : R) : bool :=
  if Rle_dec lo v then (if Rle_dec v hi then true else false) else false.

Definition bounce (p : Particle) (dimensions : R * R) : Particle :=
  let (width, height) := dimensions in
  let p :=
    if negb (between (_size p) (_x p) (width - _size p))
    then set_angle p (PI - _angle p) else p in
  if negb (between (_size p) (_y p) (height - _size p))
  then set_angle p (- _angle p) else p.

(** *** class Simulation *)

Record Simulation : Type := mkSimulation {
  _width : R;
  _height : R;
  _particles : list Particle
}.

(** The loop of [_draw_particles], without the drawing: every particle is
    moved and turned at the edges. *)
Definition _draw_particles (sim : Simulation) : Simulation :=
  mkSimulation (_width sim) (_height sim)
    (map (fun particle => bounce (move particle) (_width sim, _height sim))
         (_particles sim)).

(** *** Notions used in the statements *)

(** The displacement the next [move] gives the particle. *)
Definition step (p : Particle) : R * R :=
  (cos (_angle p) * _speed p, - (sin (_angle p) * _speed p)).

End Bouncing.

(** ** Notions shared by the statements *)


(** ** The runs used in the statements *)

(** Short names for the two scripts. *)
Module C := Collisions2D.
Module M := MyPhysics2.
Module B := Bouncing.

Definition pink : Z * Z * Z := (255, 190, 190)%Z.

(** Two particles of mass 1 and radius 5 at (100,100) and (108,100), moving
    towards each other along x at speed 1: they overlap by 2. *)
Definition head_on_a : C.Particle := C.Particle_init (100, 100) 1 5 1 0 pink.
Definition head_on_b : C.Particle := C.Particle_init (108, 100) 1 5 1 PI pink.

Definition head_on_a2 : M.Particle := M.Particle_init (100, 100) 5 0 1.
Definition head_on_b2 : M.Particle := M.Particle_init (108, 100) 5 PI 1.

(** Two particles at rest with the same centre. *)
Definition stacked_a : C.Particle := C.Particle_init (100, 100) 1 5 0 0 pink.
Definition stacked_b : C.Particle := C.Particle_init (100, 100) 1 5 0 0 pink.

Definition stacked_a2 : M.Particle := M.Particle_init (100, 100) 10 0 1.
Definition stacked_b2 : M.Particle := M.Particle_init (100, 100) 10 0 2.

(** A particle of radius 5 over the left and the top edge, moving left. *)
Definition corner_body : C.Particle := C.Particle_init (3, 3) 1 5 2 PI pink.
Definition corner_body2 : M.Particle := M.Particle_init (3, 3) 5 PI 2.


(** Two overlapping particles at rest, the first touching the left edge. *)
Definition pushed_a : C.Particle := C.Particle_init (5, 50) 1 5 0 0 pink.


(** A particle one pixel from the left edge, moving left at speed 2. *)
Definition wall_body : C.Particle := C.Particle_init (6, 50) 1 5 2 PI pink.

(** Two overlapping particles and a click inside both. *)
Definition under_a : C.Particle := C.Particle_init (100, 100) 1 10 0 0 pink.
Definition under_b : C.Particle := C.Particle_init (105, 100) 1 10 0 0 pink.
Definition under_a2 : M.Particle := M.Particle_init (100, 100) 10 0 0.
Definition under_b2 : M.Particle := M.Particle_init (105, 100) 10 0 0.
Definition click : R * R := (102, 100).

(** * Properties *)

(** ** [math.hypot] and [math.atan2] *)

Lemma hypot_nonneg x y : 0 <= hypot x y.
Proof. apply sqrt_pos. Qed.

Lemma hypot_sqr x y : hypot x y * hypot x y = x * x + y * y.
Proof. unfold hypot. apply sqrt_sqrt. nra. Qed.

Lemma hypot_0_0 : hypot 0 0 = 0.
Proof. unfold hypot. replace (0 * 0 + 0 * 0) with 0 by ring. apply sqrt_0. Qed.

Lemma hypot_eq_0 x y : hypot x y = 0 -> x = 0 /\ y = 0.
Proof.
  intros H. pose proof (hypot_sqr x y) as Hs. rewrite H in Hs.
  split; nra.
Qed.

Lemma hypot_pos x y : x <> 0 \/ y <> 0 -> 0 < hypot x y.
Proof.
  intros H. destruct (hypot_nonneg x y) as [Hlt | Heq]; [exact Hlt|].
  symmetry in Heq. apply hypot_eq_0 in Heq. lra.
Qed.

Lemma hypot_opp x y : hypot (- x) (- y) = hypot x y.
Proof. unfold hypot. f_equal. ring. Qed.

Lemma hypot_perp x y : hypot (- y) x = hypot x y.
Proof. unfold hypot. f_equal. ring. Qed.

Lemma hypot_0_r x : hypot x 0 = Rabs x.
Proof.
  unfold hypot. replace (x * x + 0 * 0) with (x²) by (unfold Rsqr; ring).
  apply sqrt_Rsqr_abs.
Qed.

Lemma hypot_0_l y : hypot 0 y = Rabs y.
Proof.
  unfold hypot. replace (0 * 0 + y * y) with (y²) by (unfold Rsqr; ring).
  apply sqrt_Rsqr_abs.
Qed.

Lemma hypot_scaled x y : x <> 0 ->
  hypot x y = Rabs x * sqrt (1 + (y / x)²).
Proof.
  intros Hx. unfold hypot.
  rewrite <- (sqrt_Rsqr_abs x), <- sqrt_mult_alt by apply Rle_0_sqr.
  f_equal. unfold Rsqr. field. exact Hx.
Qed.

Lemma sqrt_1_sqr_pos t : 0 < sqrt (1 + t²).
Proof. apply sqrt_lt_R0. pose proof (Rle_0_sqr t). lra. Qed.

Lemma atan2_cos_hypot y x : cos (atan2 y x) * hypot x y = x.
Proof.
  unfold atan2.
  destruct (Rlt_dec 0 x) as [Hx | Hx].
  - rewrite hypot_scaled by lra. rewrite cos_atan, Rabs_right by lra.
    field. pose proof (sqrt_1_sqr_pos (y / x)). lra.
  - destruct (Rlt_dec x 0) as [Hx' | Hx'].
    + assert (Hc : forall s, cos s * hypot x y = - x ->
                (- cos s) * hypot x y = x) by (intros; lra).
      assert (Hb : cos (atan (y / x)) * hypot x y = - x).
      { rewrite hypot_scaled by lra. rewrite cos_atan, Rabs_left by lra.
        field. pose proof (sqrt_1_sqr_pos (y / x)). lra. }
      destruct (Rle_dec 0 y).
      * rewrite neg_cos. apply Hc, Hb.
      * replace (atan (y / x) - PI) with (- (- atan (y / x) + PI)) by ring.
        rewrite cos_neg, neg_cos, cos_neg. apply Hc, Hb.
    + assert (x = 0) by lra. subst x.
      destruct (Rlt_dec 0 y); [rewrite cos_PI2; ring|].
      destruct (Rlt_dec y 0); [rewrite cos_neg, cos_PI2; ring|].
      assert (y = 0) by lra. subst y. rewrite hypot_0_0. ring.
Qed.

Lemma atan2_sin_hypot y x : sin (atan2 y x) * hypot x y = y.
Proof.
  unfold atan2.
  destruct (Rlt_dec 0 x) as [Hx | Hx].
  - rewrite hypot_scaled by lra. rewrite sin_atan, Rabs_right by lra.
    field. pose proof (sqrt_1_sqr_pos (y / x)). lra.
  - destruct (Rlt_dec x 0) as [Hx' | Hx'].
    + assert (Hc : forall s, sin s * hypot x y = - y ->
                (- sin s) * hypot x y = y) by (intros; lra).
      assert (Hb : sin (atan (y / x)) * hypot x y = - y).
      { rewrite hypot_scaled by lra. rewrite sin_atan, Rabs_left by lra.
        field. pose proof (sqrt_1_sqr_pos (y / x)). lra. }
      destruct (Rle_dec 0 y).
      * rewrite neg_sin. apply Hc, Hb.
      * replace (atan (y / x) - PI) with (- (- atan (y / x) + PI)) by ring.
        rewrite sin_neg, neg_sin, sin_neg.
        assert (Hd : - - - sin (atan (y / x)) = - sin (atan (y / x))) by ring.
        rewrite Hd. apply Hc, Hb.
    + assert (x = 0) by lra. subst x.
      destruct (Rlt_dec 0 y).
      * rewrite sin_PI2, hypot_0_l, Rabs_right by lra. ring.
      * destruct (Rlt_dec y 0).
        -- rewrite sin_neg, sin_PI2, hypot_0_l, Rabs_left by lra. ring.
        -- assert (y = 0) by lra. subst y. rewrite hypot_0_0. ring.
Qed.



Lemma atan2_0_neg x : x < 0 -> atan2 0 x = PI.
Proof.
  intros H. unfold atan2.
  destruct (Rlt_dec 0 x); [lra|]. destruct (Rlt_dec x 0); [|lra].
  destruct (Rle_dec 0 0); [|lra].
  replace (0 / x) with 0 by (field; lra). rewrite atan_0. ring.
Qed.

Lemma atan2_0_pos x : 0 < x -> atan2 0 x = 0.
Proof.
  intros H. unfold atan2. destruct (Rlt_dec 0 x); [|lra].
  replace (0 / x) with 0 by (field; lra). apply atan_0.
Qed.



Lemma hypot_unique u v s : 0 <= s -> u * u + v * v = s * s -> hypot u v = s.
Proof.
  intros Hs H. unfold hypot. rewrite H. apply sqrt_square. exact Hs.
Qed.

Lemma hypot_le_iff u v r : 0 <= r -> (hypot u v <= r <-> u * u + v * v <= r * r).
Proof.
  intros Hr. pose proof (hypot_nonneg u v) as Hn.
  pose proof (hypot_sqr u v) as Hs. split; intros H; nra.
Qed.

Lemma cos_sin_sqr t : cos t * cos t + sin t * sin t = 1.
Proof. pose proof (sin2_cos2 t) as H. unfold Rsqr in H. lra. Qed.

(** ** Assignment to a list element *)

Lemma map_list_set {A B : Type} (f : A -> B) i v l :
  map f (list_set i v l) = list_set i (f v) (map f l).
Proof.
  revert i. induction l as [| h t IH]; intros [| i]; cbn; try reflexivity.
  rewrite IH. reflexivity.
Qed.

Lemma list_set_same {A : Type} i (v : A) l :
  nth_error l i = Some v -> list_set i v l = l.
Proof.
  revert i. induction l as [| h t IH]; intros [| i] H; cbn in *;
    try discriminate.
  - injection H as ->. reflexivity.
  - rewrite IH by exact H. reflexivity.
Qed.

Lemma nth_error_list_set_eq {A : Type} i (v p : A) l :
  nth_error (list_set i v l) i = Some p -> p = v.
Proof.
  revert i. induction l as [| h t IH]; intros [| i] H; cbn in H;
    try discriminate.
  - injection H as <-. reflexivity.
  - apply (IH i H).
Qed.

Lemma nth_error_list_set_neq {A : Type} i j (v : A) l :
  i <> j -> nth_error (list_set i v l) j = nth_error l j.
Proof.
  revert i j. induction l as [| h t IH]; intros [| i] [| j] H; cbn;
    try reflexivity; try contradiction.
  apply IH. intros ->. apply H. reflexivity.
Qed.

Lemma length_list_set {A : Type} i (v : A) l :
  length (list_set i v l) = length l.
Proof.
  revert i. induction l as [| h t IH]; intros [| i]; cbn; try reflexivity.
  rewrite IH. reflexivity.
Qed.


(** Replacing an element by one with the same image keeps the images. *)
Lemma map_list_set_same {A B : Type} (f : A -> B) i v u l :
  nth_error l i = Some u -> f v = f u -> map f (list_set i v l) = map f l.
Proof.
  intros Hu Hf. rewrite map_list_set, Hf. apply list_set_same.
  rewrite nth_error_map, Hu. reflexivity.
Qed.

(** ** Results and division *)

Lemma Ok_inj {A : Type} (u v : A) : Ok u = Ok v -> u = v.
Proof. intros H. injection H as H. exact H. Qed.

Lemma py_div_zero a : py_div a 0 = Raise ZeroDivisionError.
Proof.
  unfold py_div. destruct (Req_dec_T 0 0); [reflexivity | contradiction].
Qed.

Lemma py_div_ok a b : b <> 0 -> py_div a b = Ok (a / b).
Proof.
  intros H. unfold py_div.
  destruct (Req_dec_T b 0); [contradiction | reflexivity].
Qed.

Lemma truthy_nonzero c : c <> 0 -> truthy c = true.
Proof.
  intros H. unfold truthy.
  destruct (Req_dec_T c 0); [contradiction | reflexivity].
Qed.

(** ** Facts about [2D_Collisions.py] *)

Module C2DFacts.
Import Collisions2D.

Lemma unit_ok v : magnitude v <> 0 ->
  unit v = Ok (mkVector (_x_comp v / magnitude v) (_y_comp v / magnitude v)).
Proof. intros H. unfold unit. rewrite !py_div_ok by exact H. reflexivity. Qed.

Lemma unit_zero v : magnitude v = 0 -> unit v = Raise ZeroDivisionError.
Proof. intros H. unfold unit. rewrite H, py_div_zero. reflexivity. Qed.

Lemma is_colliding_true a b :
  0 < _overlap_amount a b -> _is_colliding a b = true.
Proof.
  intros H. unfold _is_colliding.
  destruct (Rgt_dec (_overlap_amount a b) 0); [reflexivity | lra].
Qed.

Lemma is_colliding_false a b :
  _overlap_amount a b <= 0 -> _is_colliding a b = false.
Proof.
  intros H. unfold _is_colliding.
  destruct (Rgt_dec (_overlap_amount a b) 0); [lra | reflexivity].
Qed.

Lemma is_colliding_overlap a b :
  _is_colliding a b = true -> 0 < _overlap_amount a b.
Proof.
  unfold _is_colliding.
  destruct (Rgt_dec (_overlap_amount a b) 0); [lra | discriminate].
Qed.

Lemma overlap_distance a b :
  _overlap_amount a b = _radius a + _radius b - distance a b.
Proof. reflexivity. Qed.




(** Zero distance between the centres: the normal vector is the zero
    vector and [unit] divides by its magnitude. *)
Lemma collide_zero_distance e a b :
  _is_colliding a b = true -> distance a b = 0 ->
  collide e a b = Raise ZeroDivisionError.
Proof.
  intros Hc Hd. unfold collide. rewrite Hc.
  rewrite unit_zero; [reflexivity | exact Hd].
Qed.

Lemma collide_coincident e a b :
  _x a = _x b -> _y a = _y b -> 0 < _radius a + _radius b ->
  collide e a b = Raise ZeroDivisionError.
Proof.
  intros Hx Hy Hr.
  assert (Hd : distance a b = 0).
  { unfold distance. rewrite Hx, Hy, !Rminus_diag. apply hypot_0_0. }
  apply collide_zero_distance; [|exact Hd].
  apply is_colliding_true. rewrite overlap_distance, Hd. lra.
Qed.

Lemma collide_not_colliding e a b :
  _is_colliding a b = false -> collide e a b = Ok (a, b).
Proof. intros H. unfold collide. rewrite H. reflexivity. Qed.

Lemma tangent_magnitude a b :
  magnitude (mkVector (- (_y a - _y b)) (_x a - _x b)) = distance a b.
Proof. apply hypot_perp. Qed.

(** Distinct centres and masses that do not cancel: [collide] returns. *)
Lemma collide_ok e a b :
  _is_colliding a b = true -> distance a b <> 0 -> _mass a + _mass b <> 0 ->
  collide e a b =
  Ok (_push_apart (with_final_vec e a (fst (final_vecs a b)))
                  (with_final_vec e b (snd (final_vecs a b)))).
Proof.
  intros Hc Hd Hm. unfold collide. rewrite Hc. cbv zeta.
  rewrite unit_ok by exact Hd. cbn [bind _x_comp _y_comp].
  rewrite unit_ok by (rewrite tangent_magnitude; exact Hd). cbn [bind].
  rewrite !py_div_ok by exact Hm. cbn [bind].
  reflexivity.
Qed.

Lemma collide_masses_cancel e a b :
  _is_colliding a b = true -> distance a b <> 0 -> _mass a + _mass b = 0 ->
  collide e a b = Raise ZeroDivisionError.
Proof.
  intros Hc Hd Hm. unfold collide. rewrite Hc. cbv zeta.
  rewrite unit_ok by exact Hd. cbn [bind _x_comp _y_comp].
  rewrite unit_ok by (rewrite tangent_magnitude; exact Hd). cbn [bind].
  rewrite Hm, py_div_zero. reflexivity.
Qed.

(** *** Velocity after [collide] *)

Lemma with_final_vec_frame e p v :
  _x (with_final_vec e p v) = _x p /\ _y (with_final_vec e p v) = _y p /\
  _mass (with_final_vec e p v) = _mass p /\
  _radius (with_final_vec e p v) = _radius p /\
  _color (with_final_vec e p v) = _color p.
Proof. repeat split. Qed.

Lemma with_final_vec_velocity e p v : e <> 0 ->
  _speed_x (with_final_vec e p v) = _x_comp v * e /\
  _speed_y (with_final_vec e p v) = _y_comp v * e.
Proof.
  intros He. unfold with_final_vec, _apply_elasticity,
    _recalculate_speed_components, magnitude. cbn.
  rewrite truthy_nonzero by exact He.
  rewrite <- !Rmult_assoc, atan2_cos_hypot, atan2_sin_hypot. split; reflexivity.
Qed.

(** The exchange along the normal keeps the sum of mass times velocity. *)
Lemma final_vecs_momentum a b :
  distance a b <> 0 -> _mass a + _mass b <> 0 ->
  _mass a * _x_comp (fst (final_vecs a b))
    + _mass b * _x_comp (snd (final_vecs a b))
  = _mass a * _speed_x a + _mass b * _speed_x b /\
  _mass a * _y_comp (fst (final_vecs a b))
    + _mass b * _y_comp (snd (final_vecs a b))
  = _mass a * _speed_y a + _mass b * _speed_y b.
Proof.
  intros Hd Hm. unfold final_vecs, dot, vadd, scale, magnitude. cbv zeta.
  cbn [_x_comp _y_comp fst snd]. rewrite hypot_perp.
  fold (distance a b).
  pose proof (hypot_sqr (_x a - _x b) (_y a - _y b)) as Hs.
  fold (distance a b) in Hs.
  set (h := distance a b) in *.
  set (dx := _x a - _x b) in *. set (dy := _y a - _y b) in *.
  assert (Hs' : h * h = dx * dx + dy * dy) by lra.
  split; field_simplify_eq; try (split; assumption).
  - ring [Hs'].
  - ring [Hs'].
Qed.

(** *** Exchanging the two slots of [collide] *)




(** *** Positions after [collide] *)

Lemma push_apart_distance p q :
  0 <= _overlap_amount p q ->
  distance (fst (_push_apart p q)) (snd (_push_apart p q))
  = distance p q + 2 * _overlap_amount p q.
Proof.
  intros Ho. unfold _push_apart, distance at 1. cbv zeta. cbn [fst snd set_pos _x _y].
  set (ov := _overlap_amount p q) in *.
  pose proof (atan2_cos_hypot (_y p - _y q) (_x p - _x q)) as Hcos.
  pose proof (atan2_sin_hypot (_y p - _y q) (_x p - _x q)) as Hsin.
  pose proof (cos_sin_sqr (atan2 (_y p - _y q) (_x p - _x q))) as Hcs.
  pose proof (hypot_sqr (_x p - _x q) (_y p - _y q)) as Hs.
  pose proof (hypot_nonneg (_x p - _x q) (_y p - _y q)) as Hn.
  fold (distance p q) in *.
  set (h := distance p q) in *.
  set (c := cos _) in *. set (s := sin _) in *.
  set (dx := _x p - _x q) in *. set (dy := _y p - _y q) in *.
  apply hypot_unique; [lra|].
  replace (_x p + c * ov - (_x q - c * ov)) with (dx + 2 * c * ov)
    by (unfold dx; ring).
  replace (_y p + s * ov - (_y q - s * ov)) with (dy + 2 * s * ov)
    by (unfold dy; ring).
  rewrite <- Hcos, <- Hsin.
  replace ((c * h + 2 * c * ov) * (c * h + 2 * c * ov)
           + (s * h + 2 * s * ov) * (s * h + 2 * s * ov))
    with ((c * c + s * s) * ((h + 2 * ov) * (h + 2 * ov))) by ring.
  rewrite Hcs. ring.
Qed.

(** After a collision that returns, the centres are [2 * overlap] further
    apart than before: each particle has been moved by the whole overlap. *)
Lemma collide_distance e a b a' b' :
  _is_colliding a b = true -> collide e a b = Ok (a', b') ->
  distance a' b' = distance a b + 2 * _overlap_amount a b.
Proof.
  intros Hc H.
  destruct (Req_dec_T (distance a b) 0) as [Hd | Hd].
  { rewrite (collide_zero_distance e a b Hc Hd) in H. discriminate. }
  destruct (Req_dec_T (_mass a + _mass b) 0) as [Hm | Hm].
  { rewrite (collide_masses_cancel e a b Hc Hd Hm) in H. discriminate. }
  rewrite (collide_ok e a b Hc Hd Hm) in H. apply Ok_inj in H.
  pose proof (is_colliding_overlap a b Hc) as Ho.
  pose proof (push_apart_distance (with_final_vec e a (fst (final_vecs a b)))
                (with_final_vec e b (snd (final_vecs a b)))) as Hp.
  rewrite H in Hp. cbn [fst snd] in Hp. apply Hp.
  change (0 <= _overlap_amount a b). lra.
Qed.

Lemma collide_positions e a b r :
  _is_colliding a b = true -> collide e a b = Ok r ->
  let th := atan2 (_y a - _y b) (_x a - _x b) in
  _x (fst r) = _x a + cos th * _overlap_amount a b /\
  _y (fst r) = _y a + sin th * _overlap_amount a b /\
  _x (snd r) = _x b - cos th * _overlap_amount a b /\
  _y (snd r) = _y b - sin th * _overlap_amount a b.
Proof.
  intros Hc H.
  destruct (Req_dec_T (distance a b) 0) as [Hd | Hd].
  { rewrite (collide_zero_distance e a b Hc Hd) in H. discriminate. }
  destruct (Req_dec_T (_mass a + _mass b) 0) as [Hm | Hm].
  { rewrite (collide_masses_cancel e a b Hc Hd Hm) in H. discriminate. }
  rewrite (collide_ok e a b Hc Hd Hm) in H. apply Ok_inj in H. subst r.
  repeat split.
Qed.

(** *** What the methods leave alone *)

Lemma recalculate_constants p a c :
  constants (_recalculate_speed_components p a c) = constants p.
Proof. reflexivity. Qed.

Lemma recalculate_position p a c :
  _x (_recalculate_speed_components p a c) = _x p /\
  _y (_recalculate_speed_components p a c) = _y p.
Proof. split; reflexivity. Qed.

Lemma bounce_constants e p surface :
  constants (_bounce e p surface) = constants p.
Proof.
  destruct surface as [w h]. unfold _bounce.
  repeat (destruct (Rle_dec _ _) || destruct (Rge_dec _ _)); reflexivity.
Qed.

Lemma move_constants e d p surface :
  constants (move e d p surface) = constants p.
Proof.
  unfold move. cbv zeta.
  change (constants (_bounce e (set_pos p (_x p + _speed_x p)
            (_y p + _speed_y p)) surface) = constants p).
  rewrite bounce_constants. reflexivity.
Qed.

Lemma follow_constants f p mouse : constants (follow f p mouse) = constants p.
Proof. reflexivity. Qed.

Lemma push_apart_constants p q :
  constants (fst (_push_apart p q)) = constants p /\
  constants (snd (_push_apart p q)) = constants q.
Proof. split; reflexivity. Qed.

Lemma after_collide_constants e a b :
  constants (fst (after_collide e a b)) = constants a /\
  constants (snd (after_collide e a b)) = constants b.
Proof.
  unfold after_collide.
  destruct (_is_colliding a b) eqn:Hc.
  - destruct (Req_dec_T (distance a b) 0) as [Hd | Hd].
    { rewrite (collide_zero_distance e a b Hc Hd). split; reflexivity. }
    destruct (Req_dec_T (_mass a + _mass b) 0) as [Hm | Hm].
    { rewrite (collide_masses_cancel e a b Hc Hd Hm). split; reflexivity. }
    rewrite (collide_ok e a b Hc Hd Hm). split; reflexivity.
  - rewrite (collide_not_colliding e a b Hc). split; reflexivity.
Qed.

(** *** Reflection off the edges *)

Lemma move_inside e d p w h :
  _radius p < _x p + _speed_x p < w - _radius p ->
  _radius p < _y p + _speed_y p < h - _radius p ->
  _x (move e d p (w, h)) = _x p + _speed_x p /\
  _y (move e d p (w, h)) = _y p + _speed_y p /\
  _radius (move e d p (w, h)) = _radius p.
Proof.
  intros Hx Hy. unfold move, _bounce. cbn.
  destruct (Rle_dec _ _); [lra|]. destruct (Rge_dec _ _); [lra|].
  destruct (Rle_dec _ _); [lra|]. destruct (Rge_dec _ _); [lra|].
  cbn. auto.
Qed.




(** *** One tick of one or two particles *)

Lemma handle_events_single e d f w h p mouse_pos :
  _handle_events e d f (mkSimulation w h [p] None) mouse_pos
  = Ok (mkSimulation w h [move e d p (w, h)] None).
Proof. reflexivity. Qed.


(** *** Selection *)

Lemma select_from_first i ps coords k :
  select_from i ps coords = Some k ->
  exists j p, k = (i + j)%nat /\ nth_error ps j = Some p /\ hit coords p /\
    forall j' p', (j' < j)%nat -> nth_error ps j' = Some p' -> ~ hit coords p'.
Proof.
  revert i. induction ps as [| q rest IH]; intros i H; [discriminate|].
  cbn in H. destruct (Rle_dec _ _) as [Hq | Hq].
  - injection H as <-. exists 0%nat, q.
    split; [lia|]. split; [reflexivity|]. split; [exact Hq|].
    intros j' p' Hlt. lia.
  - destruct (IH (S i) H) as (j & p & -> & Hn & Hh & Hfirst).
    exists (S j), p.
    split; [lia|]. split; [exact Hn|]. split; [exact Hh|].
    intros [| j'] p' Hlt Hn'.
    + injection Hn' as <-. exact Hq.
    + apply (Hfirst j' p'); [lia | exact Hn'].
Qed.

Lemma select_from_none i ps coords :
  select_from i ps coords = None <-> (forall p, In p ps -> ~ hit coords p).
Proof.
  revert i. induction ps as [| q rest IH]; intros i; cbn.
  - split; [intros _ p [] | reflexivity].
  - destruct (Rle_dec _ _) as [Hq | Hq].
    + split; [discriminate|]. intros H. exfalso. apply (H q); auto.
    + rewrite IH. split.
      * intros H p [<- | Hin]; [exact Hq | apply H, Hin].
      * intros H p Hin. apply H. right. exact Hin.
Qed.

(** [_select_particle] records the first particle hit, keeps the earlier
    selection when no particle is hit, and leaves the particles alone. *)
Lemma select_particle_spec sim coords :
  _particles (_select_particle sim coords) = _particles sim /\
  _width (_select_particle sim coords) = _width sim /\
  _height (_select_particle sim coords) = _height sim /\
  _selected_particle (_select_particle sim coords)
  = match select_from 0 (_particles sim) coords with
    | Some i => Some i
    | None => _selected_particle sim
    end.
Proof.
  unfold _select_particle.
  destruct (select_from 0 (_particles sim) coords); repeat split.
Qed.

(** *** A whole tick leaves mass, radius and colour alone *)

Lemma collide_constants e a b r :
  collide e a b = Ok r ->
  constants (fst r) = constants a /\ constants (snd r) = constants b.
Proof.
  intros H. pose proof (after_collide_constants e a b) as Hk.
  unfold after_collide in Hk. rewrite H in Hk. exact Hk.
Qed.

Lemma collide_rest_constants e index js :
  forall ps ps', collide_rest e index js ps = Ok ps' ->
  map constants ps' = map constants ps.
Proof.
  induction js as [| j js IH]; intros ps ps' H; cbn [collide_rest] in H.
  - apply Ok_inj in H. subst ps'. reflexivity.
  - destruct (nth_error ps index) as [particle |] eqn:Hi;
      [| apply Ok_inj in H; subst ps'; reflexivity].
    destruct (nth_error ps j) as [other_particle |] eqn:Hj;
      [| apply Ok_inj in H; subst ps'; reflexivity].
    destruct (collide e particle other_particle) as [r | err] eqn:Hcol;
      cbn [bind] in H; [| discriminate].
    destruct (collide_constants e _ _ r Hcol) as [Hk1 Hk2].
    rewrite (IH _ _ H), !map_list_set, Hk1, Hk2.
    rewrite (list_set_same index) by (rewrite nth_error_map, Hi; reflexivity).
    apply list_set_same. rewrite nth_error_map, Hj. reflexivity.
Qed.

Lemma particles_loop_constants e d indices surface :
  forall ps ps', particles_loop e d indices surface ps = Ok ps' ->
  map constants ps' = map constants ps.
Proof.
  induction indices as [| index indices IH]; intros ps ps' H;
    cbn [particles_loop] in H.
  - apply Ok_inj in H. subst ps'. reflexivity.
  - destruct (nth_error ps index) as [particle |] eqn:Hi;
      [| apply Ok_inj in H; subst ps'; reflexivity].
    cbv zeta in H.
    destruct (collide_rest e index _ _) as [ps1 |] eqn:Hrest;
      cbn [bind] in H; [| discriminate].
    rewrite (IH _ _ H), (collide_rest_constants _ _ _ _ _ Hrest).
    apply (map_list_set_same constants index _ particle); [exact Hi|].
    apply move_constants.
Qed.

Lemma handle_events_constants e d f sim mouse_pos sim' :
  _handle_events e d f sim mouse_pos = Ok sim' ->
  map constants (_particles sim') = map constants (_particles sim).
Proof.
  unfold _handle_events. cbv zeta. intros H.
  destruct (particles_loop e d _ _ _) as [ps |] eqn:Hloop;
    cbn [bind] in H; [| discriminate].
  apply Ok_inj in H. subst sim'. cbn [_particles].
  rewrite (particles_loop_constants _ _ _ _ _ _ Hloop).
  destruct (_selected_particle sim) as [k |]; [| reflexivity].
  destruct (nth_error (_particles sim) k) as [p |] eqn:Hk; [| reflexivity].
  apply (map_list_set_same constants k _ p); [exact Hk|].
  apply follow_constants.
Qed.

End C2DFacts.

(** ** Facts about [my_physics2.py] *)

Module MP2Facts.
Import MyPhysics2.

(** *** What the methods leave alone *)

Lemma move_radius d g p : radius (move d g p) = radius p.
Proof. reflexivity. Qed.

Lemma bounce_radius e p dims : radius (bounce e p dims) = radius p.
Proof.
  destruct dims as [w h]. unfold bounce.
  repeat (destruct (Rle_dec _ _) || destruct (Rge_dec _ _)); reflexivity.
Qed.

Lemma follow_radius k p mouse : radius (follow k p mouse) = radius p.
Proof. destruct mouse. reflexivity. Qed.

Lemma collide_radius e a b :
  radius (fst (collide e a b)) = radius a /\
  radius (snd (collide e a b)) = radius b.
Proof. unfold collide. destruct (Rle_dec _ _); split; reflexivity. Qed.

(** *** Positions after [collide] *)

(** After a collision the centres are exactly the sum of the radii apart:
    each particle has been moved by half the overlap. *)
Lemma collide_ends_at_radius_sum e a b :
  distance a b <= radius a + radius b ->
  distance (fst (collide e a b)) (snd (collide e a b)) = radius a + radius b.
Proof.
  intros Hc.
  assert (Hflip : hypot (x a - x b) (- (y a - y b)) = distance a b).
  { unfold distance, hypot. f_equal. ring. }
  unfold collide. cbv zeta. rewrite Hflip.
  destruct (Rle_dec _ _) as [_ | Hn]; [| contradiction].
  unfold distance at 1. cbn [fst snd apply_elasticity x y].
  pose proof (atan2_cos_hypot (- (y a - y b)) (x a - x b)) as Hcos.
  pose proof (atan2_sin_hypot (- (y a - y b)) (x a - x b)) as Hsin.
  pose proof (cos_sin_sqr (atan2 (- (y a - y b)) (x a - x b))) as Hcs.
  pose proof (hypot_nonneg (x a - x b) (y a - y b)) as Hn.
  rewrite Hflip in Hcos, Hsin. fold (distance a b) in Hn.
  set (h := distance a b) in *.
  set (c := cos _) in *. set (s := sin _) in *.
  set (ov := radius a + radius b - h).
  apply hypot_unique; [lra|].
  replace (x a + c * ov / 2 - (x b - c * ov / 2))
    with ((x a - x b) + c * ov) by field.
  replace (y a - s * ov / 2 - (y b + s * ov / 2))
    with (- (- (y a - y b) + s * ov)) by field.
  rewrite <- Hcos, <- Hsin.
  replace ((c * h + c * ov) * (c * h + c * ov)
           + - (s * h + s * ov) * - (s * h + s * ov))
    with ((c * c + s * s) * ((h + ov) * (h + ov))) by ring.
  rewrite Hcs. unfold ov. ring.
Qed.

(** *** Exchanging the two slots of [collide] *)



(** *** Reflection off the edges *)

(** A particle over the left and the top edge is reflected on both axes. *)
Lemma bounce_corner e p w h :
  x p <= radius p -> y p <= radius p ->
  bounce e p (w, h)
  = mkParticle (x p + 2 * (radius p - x p)) (y p + 2 * (radius p - y p))
      (radius p) (- (PI - angle p)) (speed p * e * e).
Proof.
  intros Hx Hy. unfold bounce.
  destruct (Rle_dec (x p) (radius p)); [| contradiction].
  cbn [apply_elasticity x y radius angle speed].
  destruct (Rle_dec (y p) (radius p)); [| contradiction].
  reflexivity.
Qed.

(** *** Selection *)

(** The selection so far is overwritten by every later hit. *)
Lemma select_from_app i ps qs coords sel :
  select_from i (ps ++ qs) coords sel
  = select_from (i + length ps) qs coords (select_from i ps coords sel).
Proof.
  revert i sel. induction ps as [| p rest IH]; intros i sel.
  - cbn. rewrite Nat.add_0_r. reflexivity.
  - destruct coords as [mx my]. cbn [app select_from length].
    destruct (Rle_dec _ _); rewrite IH; f_equal; lia.
Qed.

Lemma select_from_last_hit i ps q qs coords sel :
  hit coords q -> (forall p, In p qs -> ~ hit coords p) ->
  select_from i (ps ++ q :: qs) coords sel = Some (i + length ps)%nat.
Proof.
  intros Hq Hqs. rewrite select_from_app. destruct coords as [mx my].
  cbn [select_from]. unfold hit in Hq. cbn [fst snd] in Hq.
  destruct (Rle_dec _ _) as [_ | Hn]; [| contradiction].
  generalize (S (i + length ps)).
  induction qs as [| r rest IH]; intros n; [reflexivity|].
  cbn [select_from].
  destruct (Rle_dec _ _) as [Hr | Hr].
  - exfalso. apply (Hqs r); [left; reflexivity | exact Hr].
  - apply IH. intros p Hin. apply Hqs. right. exact Hin.
Qed.

Lemma select_particle_frame sim coords :
  _particles (_select_particle sim coords) = _particles sim /\
  _width (_select_particle sim coords) = _width sim /\
  _height (_select_particle sim coords) = _height sim.
Proof. repeat split. Qed.

(** *** A whole tick leaves the radius alone *)

Lemma collide_rest_radius e index js :
  forall ps, map radius (collide_rest e index js ps) = map radius ps.
Proof.
  induction js as [| j js IH]; intros ps; cbn [collide_rest];
    [reflexivity|].
  destruct (nth_error ps index) as [particle |] eqn:Hi; [| reflexivity].
  destruct (nth_error ps j) as [other_particle |] eqn:Hj; [| reflexivity].
  cbv zeta.
  destruct (collide_radius e particle other_particle) as [Hr1 Hr2].
  rewrite IH, !map_list_set, Hr1, Hr2.
  rewrite (list_set_same index) by (rewrite nth_error_map, Hi; reflexivity).
  apply list_set_same. rewrite nth_error_map, Hj. reflexivity.
Qed.

Lemma particles_loop_radius e d g indices dims :
  forall ps, map radius (particles_loop e d g indices dims ps) = map radius ps.
Proof.
  induction indices as [| index indices IH]; intros ps;
    cbn [particles_loop]; [reflexivity|].
  destruct (nth_error ps index) as [particle |] eqn:Hi; [| reflexivity].
  cbv zeta. rewrite IH, collide_rest_radius.
  apply (map_list_set_same radius index _ particle); [exact Hi|].
  rewrite bounce_radius. apply move_radius.
Qed.

Lemma handle_events_radius e d g k sim mouse_pos :
  map radius (_particles (_handle_events e d g k sim mouse_pos))
  = map radius (_particles sim).
Proof.
  unfold _handle_events. cbv zeta. cbn [_particles].
  rewrite particles_loop_radius.
  destruct (_selected_particle sim) as [i |]; [| reflexivity].
  destruct (nth_error (_particles sim) i) as [p |] eqn:Hi; [| reflexivity].
  apply (map_list_set_same radius i _ p); [exact Hi|].
  apply follow_radius.
Qed.

End MP2Facts.

(** ** The claims *)

(** C1 (code defect).  The claim: when the centres of two bodies coincide,
    collision resolution falls back to an arbitrary axis instead of raising
    a division-by-zero fault, so that no tick can raise.  The code: for the
    two stacked particles, [collide] raises [ZeroDivisionError], and so does
    the tick [_handle_events] of a simulation made of them. *)
Theorem C1_coincident_centres_raise :
  C.collide C.ELASTICITY_COEFFICIENT stacked_a stacked_b
  = Raise ZeroDivisionError /\
  C._handle_events C.ELASTICITY_COEFFICIENT C.DRAG_COEFFICIENT
    C.MOUSE_FLING_COEFFICIENT
    (C.mkSimulation 800 800 [stacked_a; stacked_b] None) (0, 0)
  = Raise ZeroDivisionError.
Proof.
  split.
  - apply C2DFacts.collide_coincident; cbn; lra.
  - unfold C._handle_events.
    cbn [C._selected_particle C._particles length seq C.particles_loop
         nth_error list_set bind C._width C._height Nat.sub C.collide_rest].
    destruct (C2DFacts.move_inside C.ELASTICITY_COEFFICIENT C.DRAG_COEFFICIENT
                stacked_a 800 800) as (Hx & Hy & Hr); [cbn; lra | cbn; lra |].
    rewrite C2DFacts.collide_coincident; [reflexivity | | |].
    + rewrite Hx. cbn. lra.
    + rewrite Hy. cbn. lra.
    + rewrite Hr. cbn. lra.
Qed.

Lemma head_on_overlap : C._overlap_amount head_on_a head_on_b = 2.
Proof.
  unfold C._overlap_amount. cbn.
  replace (100 - 108) with (- (8)) by lra. rewrite Rminus_diag.
  rewrite hypot_0_r, Rabs_Ropp, Rabs_right by lra. lra.
Qed.

Lemma head_on_distance : C.distance head_on_a head_on_b = 8.
Proof.
  pose proof head_on_overlap as H. rewrite C2DFacts.overlap_distance in H.
  cbn in H. lra.
Qed.

(** C2 (code defect).  The claim: resolution moves the two bodies apart by
    the overlap in total, so that afterwards their centres are exactly the
    sum of the radii apart.  The code of [2D_Collisions.py]: in the head-on
    run the overlap is 2 and the radii sum to 10, yet [collide] moves each
    particle by 2, to x = 98 and x = 110, and leaves the centres 12 apart. *)
Theorem C2_each_particle_moved_by_whole_overlap :
  C._overlap_amount head_on_a head_on_b = 2 /\
  exists a' b',
    C.collide C.ELASTICITY_COEFFICIENT head_on_a head_on_b = Ok (a', b') /\
    C._x a' = 98 /\ C._y a' = 100 /\ C._x b' = 110 /\ C._y b' = 100 /\
    C._radius a' + C._radius b' = 10 /\ C.distance a' b' = 12.
Proof.
  split; [exact head_on_overlap|].
  assert (Hc : C._is_colliding head_on_a head_on_b = true).
  { apply C2DFacts.is_colliding_true. rewrite head_on_overlap. lra. }
  assert (Hd : C.distance head_on_a head_on_b <> 0).
  { rewrite head_on_distance. lra. }
  assert (Hm : C._mass head_on_a + C._mass head_on_b <> 0) by (cbn; lra).
  pose proof (C2DFacts.collide_ok C.ELASTICITY_COEFFICIENT _ _ Hc Hd Hm) as Hok.
  set (r := C._push_apart _ _) in Hok.
  assert (Hdist : C.distance (fst r) (snd r) = 12).
  { rewrite (C2DFacts.collide_distance C.ELASTICITY_COEFFICIENT
               head_on_a head_on_b (fst r) (snd r) Hc).
    - rewrite head_on_distance, head_on_overlap. lra.
    - rewrite <- surjective_pairing. exact Hok. }
  exists (fst r), (snd r). rewrite <- surjective_pairing.
  split; [exact Hok|].
  assert (Hang : atan2 (100 - 100) (100 - 108) = PI).
  { rewrite Rminus_diag. apply atan2_0_neg. lra. }
  assert (Hov : C._radius head_on_a + C._radius head_on_b
                - hypot (100 - 108) (100 - 100) = 2) by exact head_on_overlap.
  cbn in Hov.
  repeat (split; [unfold r, C._push_apart, C._overlap_amount; cbn;
                  rewrite ?Hang, ?Hov, ?cos_PI, ?sin_PI; lra|]).
  exact Hdist.
Qed.

(** C3 (code defect).  The claim: a body over an x edge and a y edge in the
    same tick is reflected on both axes by one call.  The code of
    [2D_Collisions.py]: [_bounce] is one if/elif chain, so for the particle
    at (3,3) with radius 5 only the top edge is handled: y becomes 7 and the
    angle is negated, while x stays 3 (still left of the edge) and the x
    velocity still points left.  [bounce] of [my_physics2.py] handles both
    axes for the same particle. *)
Theorem C3_bounce_handles_one_edge_only :
  let q := C._bounce C.ELASTICITY_COEFFICIENT corner_body (800, 800) in
  (C._y q = 7 /\ C._x q = 3 /\ C._x q < C._radius q /\
   C._angle q = - PI /\ C._speed_x q = - (16 / 10)) /\
  let q2 := M.bounce M.ELASTICITY_COEFFICIENT corner_body2 (800, 800) in
  (M.x q2 = 7 /\ M.y q2 = 7 /\ M.angle q2 = - (PI - PI)).
Proof.
  split.
  - unfold C._bounce, corner_body. cbn.
    destruct (Rle_dec 3 5); [| lra]. cbn.
    unfold truthy, C.ELASTICITY_COEFFICIENT.
    destruct (Req_dec_T (8 / 10) 0); [lra|].
    rewrite cos_neg, cos_PI. repeat split; lra.
  - rewrite MP2Facts.bounce_corner by (cbn; lra). cbn. repeat split; lra.
Qed.

(** C4.  A body at (5,50) with radius 5 and speed 2 in an 800x800 window
    (whatever its angle, in particular pi for a body moving left): one call
    of the reflection turns the angle into pi - angle, leaves x at exactly 5
    and multiplies the speed by the elasticity coefficient; this holds for
    [_bounce] of [2D_Collisions.py] and for [bounce] of [my_physics2.py]. *)
Theorem C4_reflection_off_left_edge :
  forall (angle mass : R) (color : Z * Z * Z),
  (let q := C._bounce C.ELASTICITY_COEFFICIENT
              (C.Particle_init (5, 50) mass 5 2 angle color) (800, 800) in
   C._angle q = PI - angle /\ C._x q = 5 /\ C._y q = 50 /\
   C._speed q = 2 * C.ELASTICITY_COEFFICIENT /\
   C._speed_x q = cos (PI - angle) * (2 * C.ELASTICITY_COEFFICIENT) /\
   C._speed_y q = sin (PI - angle) * (2 * C.ELASTICITY_COEFFICIENT)) /\
  (let q := M.bounce M.ELASTICITY_COEFFICIENT
              (M.Particle_init (5, 50) 5 angle 2) (800, 800) in
   M.angle q = PI - angle /\ M.x q = 5 /\ M.y q = 50 /\
   M.speed q = 2 * M.ELASTICITY_COEFFICIENT).
Proof.
  intros angle mass color. split.
  - unfold C._bounce. cbn.
    destruct (Rle_dec 50 5); [lra|].
    destruct (Rge_dec 50 (800 - 5)); [lra|].
    destruct (Rle_dec 5 5); [| lra]. cbn.
    unfold truthy, C.ELASTICITY_COEFFICIENT.
    destruct (Req_dec_T (8 / 10) 0); [lra|].
    repeat split; lra.
  - unfold M.bounce. cbn.
    destruct (Rle_dec 5 5); [| lra]. cbn.
    destruct (Rle_dec 50 5); [lra|].
    destruct (Rge_dec 50 (800 - 5)); [lra|].
    cbn. repeat split; lra.
Qed.

Lemma click_hits_under_a2 : M.hit click under_a2.
Proof. unfold M.hit. cbn. apply hypot_le_iff; lra. Qed.

Lemma click_hits_under_b2 : M.hit click under_b2.
Proof. unfold M.hit. cbn. apply hypot_le_iff; lra. Qed.

Lemma click_hits_under_a : C.hit click under_a.
Proof. unfold C.hit. cbn. apply hypot_le_iff; lra. Qed.

(** C5 (code defect).  The claim: the selection query gives the first body,
    in collection order, that contains the point.  The code of
    [my_physics2.py]: the loop of [_select_particle] has no [return], so a
    later hit overwrites an earlier one; with two particles under the click
    it selects the second (position 1) although the first (position 0) is
    hit as well.  [_select_particle] of [2D_Collisions.py] returns at the
    first hit and selects position 0 for the same particles. *)
Theorem C5_my_physics2_selects_last_hit :
  M.hit click under_a2 /\ M.hit click under_b2 /\
  M._selected_particle
    (M._select_particle (M.mkSimulation [under_a2; under_b2] 800 800 None)
       click) = Some 1%nat /\
  C._selected_particle
    (C._select_particle (C.mkSimulation 800 800 [under_a; under_b] None)
       click) = Some 0%nat.
Proof.
  split; [exact click_hits_under_a2|]. split; [exact click_hits_under_b2|].
  split.
  - unfold M._select_particle. cbn [M._selected_particle M._particles].
    apply (MP2Facts.select_from_last_hit 0 [under_a2] under_b2 [] click None).
    + exact click_hits_under_b2.
    + intros p [].
  - unfold C._select_particle. cbn [C._particles C.select_from].
    destruct (Rle_dec _ _) as [_ | Hn]; [reflexivity|].
    exfalso. apply Hn. exact click_hits_under_a.
Qed.

(** C6.  For every two overlapping bodies (of positive mass), with
    elasticity coefficient 1, the sum of mass times velocity over the two
    bodies is the same before and after [collide].  This holds however the
    call ends; the call returns whenever the two centres are distinct.
    ([collide] does not use the drag coefficient; over the reals the two
    sums are equal, not only close.) *)
Theorem C6_collide_conserves_momentum :
  forall a b : C.Particle,
  0 < C._mass a -> 0 < C._mass b -> C._is_colliding a b = true ->
  C.total_momentum (fst (C.after_collide 1 a b)) (snd (C.after_collide 1 a b))
  = C.total_momentum a b /\
  (C.distance a b <> 0 ->
   exists a' b', C.collide 1 a b = Ok (a', b') /\
                 C.total_momentum a' b' = C.total_momentum a b).
Proof.
  intros a b Ha Hb Hc.
  assert (Hm : C._mass a + C._mass b <> 0) by lra.
  assert (Hmom : C.distance a b <> 0 ->
    let r := C._push_apart
               (C.with_final_vec 1 a (fst (C.final_vecs a b)))
               (C.with_final_vec 1 b (snd (C.final_vecs a b))) in
    C.total_momentum (fst r) (snd r) = C.total_momentum a b).
  { intros Hd r. unfold C.total_momentum, r, C._push_apart.
    cbn [fst snd C.set_pos C._mass C._speed_x C._speed_y].
    destruct (C2DFacts.with_final_vec_velocity 1 a (fst (C.final_vecs a b)))
      as [-> ->]; [lra|].
    destruct (C2DFacts.with_final_vec_velocity 1 b (snd (C.final_vecs a b)))
      as [-> ->]; [lra|].
    destruct (C2DFacts.with_final_vec_frame 1 a (fst (C.final_vecs a b)))
      as (_ & _ & -> & _).
    destruct (C2DFacts.with_final_vec_frame 1 b (snd (C.final_vecs a b)))
      as (_ & _ & -> & _).
    destruct (C2DFacts.final_vecs_momentum a b Hd Hm) as [Hx Hy].
    f_equal; lra. }
  split.
  - unfold C.after_collide.
    destruct (Req_dec_T (C.distance a b) 0) as [Hd | Hd].
    + rewrite (C2DFacts.collide_zero_distance 1 a b Hc Hd). reflexivity.
    + rewrite (C2DFacts.collide_ok 1 a b Hc Hd Hm). apply Hmom, Hd.
  - intros Hd. eexists. eexists. split.
    + rewrite (C2DFacts.collide_ok 1 a b Hc Hd Hm).
      rewrite (surjective_pairing (C._push_apart _ _)). reflexivity.
    + apply Hmom, Hd.
Qed.

Lemma C6_collide_conserves_momentum_witness :
  C.total_momentum (fst (C.after_collide 1 head_on_a head_on_b))
                   (snd (C.after_collide 1 head_on_a head_on_b))
  = C.total_momentum head_on_a head_on_b /\
  exists a' b', C.collide 1 head_on_a head_on_b = Ok (a', b') /\
                C.total_momentum a' b' = C.total_momentum head_on_a head_on_b.
Proof.
  destruct (C6_collide_conserves_momentum head_on_a head_on_b) as [H1 H2].
  - cbn. lra.
  - cbn. lra.
  - apply C2DFacts.is_colliding_true. rewrite head_on_overlap. lra.
  - split; [exact H1|]. apply H2. rewrite head_on_distance. lra.
Defined.




(** In [my_physics2.py] the stored angle of a body can depend on its slot
    by a full turn: in the head-on run the first body ends with angle 3 pi
    as [self] and with angle pi as [p2]. *)
Lemma head_on2_angle_depends_on_slot :
  M.angle (fst (M.collide M.ELASTICITY_COEFFICIENT head_on_a2 head_on_b2))
  = 3 * PI /\
  M.angle (snd (M.collide M.ELASTICITY_COEFFICIENT head_on_b2 head_on_a2))
  = PI.
Proof.
  unfold M.collide, head_on_a2, head_on_b2. cbn.
  rewrite !Rminus_diag, Ropp_0.
  replace (100 - 108) with (- (8)) by lra.
  replace (108 - 100) with 8 by lra.
  rewrite !hypot_0_r, Rabs_Ropp, Rabs_right by lra.
  destruct (Rle_dec 8 (5 + 5)); [| lra].
  cbn. rewrite atan2_0_neg, atan2_0_pos by lra. split; lra.
Qed.



(** C8, the claim as stated fails: a body with radius 0 and mass -1 is
    constructed, and so is a body whose radius is a NaN; the one
    construction that fails, with an infinite angle in [2D_Collisions.py],
    raises [ValueError].  Neither script raises a ValidationError. *)
Lemma C8_invalid_body_is_constructed :
  (C.Particle_new (Finite 0, Finite 0) (Finite (- (1))) (Finite 0) (Finite 1)
     (Finite 0) pink <> Raise ValidationError /\
   exists p,
     C.Particle_new (Finite 0, Finite 0) (Finite (- (1))) (Finite 0)
       (Finite 1) (Finite 0) pink = Ok p /\
     C.attr_radius p = Finite 0 /\ C.attr_mass p = Finite (- (1))) /\
  (exists p,
     C.Particle_new (Finite 0, Finite 0) (Finite 1) NaN (Finite 1)
       (Finite 0) pink = Ok p /\
     C.attr_radius p = NaN) /\
  C.Particle_new (Finite 0, Finite 0) (Finite 1) (Finite 5) (Finite 1) Inf pink
  = Raise ValueError /\
  (M.Particle_new (Finite 0, Finite 0) (Finite 0) (Finite 0) (Finite 1)
   <> Raise ValidationError /\
   exists p,
     M.Particle_new (Finite 0, Finite 0) (Finite 0) Inf NaN = Ok p /\
     M.attr_radius p = Finite 0).
Proof.
  split; [split; [discriminate | eexists; repeat split]|].
  split; [eexists; repeat split|].
  split; [reflexivity|].
  split; [discriminate | eexists; repeat split].
Qed.

(** C8 (amended).  Construction checks nothing, and no ValidationError is
    ever raised.  In [2D_Collisions.py] the constructor raises, with
    [ValueError] from [math.cos], exactly when the angle is infinite, and
    the list that [particles.append(Particle(...))] was to extend is then
    left as it was; for every other input, whether its numbers are finite,
    infinite or NaN, positive or not, it returns a body holding exactly the
    given position, mass, radius, speed, angle and colour, which is
    appended.  In [my_physics2.py] the constructor returns such a body for
    every input.  On finite numbers both constructors give the particle of
    [Particle_init]. *)
Theorem C8_construction_checks_nothing :
  forall (position : PyFloat * PyFloat) (mass radius speed angle : PyFloat)
         (color : Z * Z * Z) (particles : list C.Attributes)
         (particles2 : list M.Attributes),
  (C.Particle_new position mass radius speed angle color
   <> Raise ValidationError /\
   (angle = Inf \/ angle = NegInf ->
    C.Particle_new position mass radius speed angle color = Raise ValueError /\
    C.append_Particle particles position mass radius speed angle color
    = (particles, Some ValueError)) /\
   (angle <> Inf -> angle <> NegInf ->
    exists p,
      C.Particle_new position mass radius speed angle color = Ok p /\
      C.attr_x p = fst position /\ C.attr_y p = snd position /\
      C.attr_mass p = mass /\ C.attr_radius p = radius /\
      C.attr_speed p = speed /\ C.attr_angle p = angle /\
      C.attr_color p = color /\
      C.append_Particle particles position mass radius speed angle color
      = (particles ++ [p], None)) /\
   (forall x y m r s a,
      C.Particle_new (Finite x, Finite y) (Finite m) (Finite r) (Finite s)
        (Finite a) color
      = Ok (C.as_floats (C.Particle_init (x, y) m r s a color)))) /\
  (M.Particle_new position radius angle speed
   = Ok (M.mkAttributes (fst position) (snd position) radius angle speed) /\
   M.append_Particle particles2 position radius angle speed
   = (particles2
      ++ [M.mkAttributes (fst position) (snd position) radius angle speed],
      None) /\
   (forall x y r a s,
      M.Particle_new (Finite x, Finite y) (Finite r) (Finite a) (Finite s)
      = Ok (M.as_floats (M.Particle_init (x, y) r a s)))).
Proof.
  intros position mass radius speed angle color particles particles2.
  split; [| repeat split].
  split.
  { unfold C.Particle_new. destruct angle; cbn; discriminate. }
  split.
  { intros [-> | ->]; split; reflexivity. }
  split; [| reflexivity].
  intros Hinf Hneg. unfold C.append_Particle, C.Particle_new.
  destruct angle; try contradiction; cbn; eexists; repeat split.
Qed.

Lemma C8_construction_checks_nothing_witness :
  (C.Particle_new (Finite 100, Finite 100) (Finite 1) (Finite 5) (Finite 1)
     Inf pink = Raise ValueError /\
   C.append_Particle [] (Finite 100, Finite 100) (Finite 1) (Finite 5)
     (Finite 1) Inf pink = ([], Some ValueError)) /\
  exists p,
    C.Particle_new (Finite 100, Finite 100) (Finite (- (1))) (Finite 0)
      (Finite 1) NaN pink = Ok p /\
    C.attr_x p = fst (Finite 100, Finite 100) /\
    C.attr_y p = snd (Finite 100, Finite 100) /\
    C.attr_mass p = Finite (- (1)) /\ C.attr_radius p = Finite 0 /\
    C.attr_speed p = Finite 1 /\ C.attr_angle p = NaN /\
    C.attr_color p = pink /\
    C.append_Particle [] (Finite 100, Finite 100) (Finite (- (1))) (Finite 0)
      (Finite 1) NaN pink = ([] ++ [p], None).
Proof.
  split.
  - apply (proj1 (proj2 (proj1 (C8_construction_checks_nothing
             (Finite 100, Finite 100) (Finite 1) (Finite 5) (Finite 1) Inf
             pink [] [])))).
    left. reflexivity.
  - apply (proj1 (proj2 (proj2 (proj1 (C8_construction_checks_nothing
             (Finite 100, Finite 100) (Finite (- (1))) (Finite 0) (Finite 1)
             NaN pink [] []))))); discriminate.
Defined.

Lemma constants_radius (p q : C.Particle) :
  C.constants p = C.constants q -> C._radius p = C._radius q.
Proof. unfold C.constants. intros H. injection H as _ Hr _. exact Hr. Qed.

(** *** Three ticks that leave a body out of the window *)






(** *** The loop of a tick, body by body *)









(** *** A tick without contact *)

Lemma move_first_length e d surface n :
  forall ps, length (C.move_first e d surface n ps) = length ps.
Proof.
  induction n as [| n IH]; intros [| p rest]; cbn; try reflexivity.
  rewrite IH. reflexivity.
Qed.










(** C10.  Integration, following the pointer, reflection off the edges and
    collision resolution leave the mass and the radius (and the colour) of
    every body as they were, and so does a whole tick for every body of the
    simulation; [my_physics2.py] has no mass attribute, and its methods and
    its tick leave the radius as it was. *)
Theorem C10_mass_and_radius_unchanged :
  forall (e d f g k : R) (p p2 : C.Particle) (q q2 : M.Particle)
         (surface mouse : R * R) (sim : C.Simulation) (sim2 : M.Simulation),
  (C.constants (C.move e d p surface) = C.constants p /\
   C.constants (C.follow f p mouse) = C.constants p /\
   C.constants (C._bounce e p surface) = C.constants p /\
   C.constants (fst (C.after_collide e p p2)) = C.constants p /\
   C.constants (snd (C.after_collide e p p2)) = C.constants p2 /\
   match C._handle_events e d f sim mouse with
   | Ok sim' =>
       map C.constants (C._particles sim') = map C.constants (C._particles sim)
   | Raise _ => True
   end) /\
  (M.radius (M.move d g q) = M.radius q /\
   M.radius (M.follow k q mouse) = M.radius q /\
   M.radius (M.bounce e q surface) = M.radius q /\
   M.radius (fst (M.collide e q q2)) = M.radius q /\
   M.radius (snd (M.collide e q q2)) = M.radius q2 /\
   map M.radius (M._particles (M._handle_events e d g k sim2 mouse))
   = map M.radius (M._particles sim2)).
Proof.
  intros. split.
  - split; [apply C2DFacts.move_constants|].
    split; [apply C2DFacts.follow_constants|].
    split; [apply C2DFacts.bounce_constants|].
    split; [apply C2DFacts.after_collide_constants|].
    split; [apply C2DFacts.after_collide_constants|].
    destruct (C._handle_events e d f sim mouse) as [sim' |] eqn:H; [| exact I].
    apply (C2DFacts.handle_events_constants _ _ _ _ _ _ H).
  - split; [apply MP2Facts.move_radius|].
    split; [apply MP2Facts.follow_radius|].
    split; [apply MP2Facts.bounce_radius|].
    split; [apply MP2Facts.collide_radius|].
    split; [apply MP2Facts.collide_radius|].
    apply MP2Facts.handle_events_radius.
Qed.

(** * Further properties of the code *)

(** ** [2D_Collisions.py]: vectors *)

(** X1.  [Vector.unit] raises [ZeroDivisionError] on a vector of magnitude
    zero; on any other vector it returns a vector of magnitude 1 which,
    scaled by the magnitude of the original, gives the original back. *)
Theorem X1_unit_vector :
  forall v : C.Vector,
  (C.magnitude v = 0 -> C.unit v = Raise ZeroDivisionError) /\
  (C.magnitude v <> 0 ->
   exists u, C.unit v = Ok u /\ C.magnitude u = 1 /\
             C.scale u (C.magnitude v) = v).
Proof.
  intros v. split; [apply C2DFacts.unit_zero|].
  intros Hm. eexists. split; [apply C2DFacts.unit_ok, Hm|].
  destruct v as [vx vy]. unfold C.magnitude, C.scale in *. cbn in *.
  pose proof (hypot_sqr vx vy) as Hs. set (h := hypot vx vy) in *.
  split.
  - apply hypot_unique; [lra|].
    replace (vx / h * (vx / h) + vy / h * (vy / h))
      with ((vx * vx + vy * vy) / (h * h)) by (field; exact Hm).
    rewrite <- Hs. field. exact Hm.
  - f_equal; field; exact Hm.
Qed.

Lemma hypot_3_4 : hypot 3 4 = 5.
Proof. apply hypot_unique; lra. Qed.

Lemma X1_unit_vector_witness :
  C.unit (C.mkVector 0 0) = Raise ZeroDivisionError /\
  exists u, C.unit (C.mkVector 3 4) = Ok u /\ C.magnitude u = 1 /\
            C.scale u (C.magnitude (C.mkVector 3 4)) = C.mkVector 3 4.
Proof.
  split.
  - apply (proj1 (X1_unit_vector (C.mkVector 0 0))). apply hypot_0_0.
  - apply (proj2 (X1_unit_vector (C.mkVector 3 4))).
    unfold C.magnitude. cbn. rewrite hypot_3_4. lra.
Defined.

(** ** [2D_Collisions.py]: the velocity of a particle *)

Lemma recalculate_consistent p a c :
  C.consistent (C._recalculate_speed_components p a c).
Proof. split; reflexivity. Qed.

(** X3.  [_recalculate_speed_components] multiplies the speed by a
    coefficient only if the coefficient is not zero: with the coefficient 0
    the speed stays as it was, so a drag or elasticity of 0 does not stop a
    particle.  In every case the two velocity components are set from the
    new angle and the resulting speed. *)
Theorem X3_zero_coefficient_is_ignored :
  forall (p : C.Particle) (a : R),
  C._speed (C._recalculate_speed_components p a (Some 0)) = C._speed p /\
  C._speed (C._apply_drag 0 p) = C._speed p /\
  C._speed (C._apply_elasticity 0 p) = C._speed p /\
  (forall c, c <> 0 ->
     C._speed (C._recalculate_speed_components p a (Some c)) = C._speed p * c) /\
  (forall c, C.consistent (C._recalculate_speed_components p a c) /\
             C._angle (C._recalculate_speed_components p a c) = a).
Proof.
  intros p a.
  assert (H0 : truthy 0 = false).
  { unfold truthy. destruct (Req_dec_T 0 0); [reflexivity | contradiction]. }
  unfold C._apply_drag, C._apply_elasticity, C._recalculate_speed_components.
  cbn. rewrite H0. repeat split.
  intros c Hc. rewrite (truthy_nonzero c Hc). reflexivity.
Qed.

Lemma X3_zero_coefficient_is_ignored_witness :
  C._speed (C._recalculate_speed_components wall_body 0 (Some (1 / 2)))
  = C._speed wall_body * (1 / 2).
Proof.
  apply (proj1 (proj2 (proj2 (proj2
           (X3_zero_coefficient_is_ignored wall_body 0))))).
  lra.
Defined.

(** X5.  After [follow] the velocity of the particle points from its centre
    to the mouse cursor and its length is the distance to the cursor times
    the fling coefficient (not zero); the centre itself is not moved. *)
Theorem X5_follow_heads_for_the_cursor :
  forall (f : R) (p : C.Particle) (mouse : R * R),
  f <> 0 ->
  let q := C.follow f p mouse in
  C._speed_x q = (fst mouse - C._x p) * f /\
  C._speed_y q = (snd mouse - C._y p) * f /\
  C._speed q = hypot (fst mouse - C._x p) (snd mouse - C._y p) * f /\
  C._x q = C._x p /\ C._y q = C._y p.
Proof.
  intros f p mouse Hf. unfold C.follow, C._recalculate_speed_components.
  cbn. rewrite (truthy_nonzero f Hf).
  rewrite <- !Rmult_assoc, atan2_cos_hypot, atan2_sin_hypot.
  repeat split.
Qed.

Lemma X5_follow_heads_for_the_cursor_witness :
  let q := C.follow C.MOUSE_FLING_COEFFICIENT wall_body (106, 150) in
  C._speed_x q = (fst (106, 150) - C._x wall_body) * C.MOUSE_FLING_COEFFICIENT /\
  C._speed_y q = (snd (106, 150) - C._y wall_body) * C.MOUSE_FLING_COEFFICIENT /\
  C._speed q = hypot (fst (106, 150) - C._x wall_body)
                     (snd (106, 150) - C._y wall_body)
               * C.MOUSE_FLING_COEFFICIENT /\
  C._x q = C._x wall_body /\ C._y q = C._y wall_body.
Proof.
  apply (X5_follow_heads_for_the_cursor C.MOUSE_FLING_COEFFICIENT wall_body
           (106, 150)).
  unfold C.MOUSE_FLING_COEFFICIENT. lra.
Defined.

(** ** [2D_Collisions.py]: collisions *)

(** X6.  [collide] raises exactly when the two particles overlap and either
    their centres coincide or their masses add up to zero, and what it
    raises is [ZeroDivisionError]. *)
Theorem X6_collide_raises_exactly_when :
  forall (e : R) (a b : C.Particle) (err : PyError),
  C.collide e a b = Raise err <->
  (err = ZeroDivisionError /\ C._is_colliding a b = true /\
   (C.distance a b = 0 \/ C._mass a + C._mass b = 0)).
Proof.
  intros e a b err. split.
  - intros H. destruct (C._is_colliding a b) eqn:Hc.
    + destruct (Req_dec_T (C.distance a b) 0) as [Hd | Hd].
      * rewrite (C2DFacts.collide_zero_distance e a b Hc Hd) in H.
        injection H as <-. auto.
      * destruct (Req_dec_T (C._mass a + C._mass b) 0) as [Hm | Hm].
        -- rewrite (C2DFacts.collide_masses_cancel e a b Hc Hd Hm) in H.
           injection H as <-. auto.
        -- rewrite (C2DFacts.collide_ok e a b Hc Hd Hm) in H. discriminate.
    + rewrite (C2DFacts.collide_not_colliding e a b Hc) in H. discriminate.
  - intros (-> & Hc & [Hd | Hm]).
    + apply C2DFacts.collide_zero_distance; assumption.
    + destruct (Req_dec_T (C.distance a b) 0) as [Hd | Hd].
      * apply C2DFacts.collide_zero_distance; assumption.
      * apply C2DFacts.collide_masses_cancel; assumption.
Qed.

Lemma X6_collide_raises_exactly_when_witness :
  C.collide C.ELASTICITY_COEFFICIENT stacked_a stacked_b
  = Raise ZeroDivisionError.
Proof.
  apply (proj2 (X6_collide_raises_exactly_when C.ELASTICITY_COEFFICIENT
                  stacked_a stacked_b ZeroDivisionError)).
  split; [reflexivity|]. split.
  - apply C2DFacts.is_colliding_true. rewrite C2DFacts.overlap_distance.
    unfold C.distance. cbn. rewrite Rminus_diag, hypot_0_0. lra.
  - left. unfold C.distance. cbn. rewrite Rminus_diag. apply hypot_0_0.
Defined.

(** X7.  Two particles that do not overlap, in particular two particles
    that just touch (their centres are the sum of the radii apart), are
    returned by [collide] as they are. *)
Theorem X7_collide_leaves_touching_particles :
  forall (e : R) (a b : C.Particle),
  C.distance a b >= C._radius a + C._radius b ->
  C.collide e a b = Ok (a, b).
Proof.
  intros e a b H. apply C2DFacts.collide_not_colliding.
  apply C2DFacts.is_colliding_false. rewrite C2DFacts.overlap_distance. lra.
Qed.

Lemma X7_collide_leaves_touching_particles_witness :
  C.collide C.ELASTICITY_COEFFICIENT pushed_a
    (C.Particle_init (15, 50) 1 5 0 0 pink)
  = Ok (pushed_a, C.Particle_init (15, 50) 1 5 0 0 pink).
Proof.
  apply (X7_collide_leaves_touching_particles C.ELASTICITY_COEFFICIENT).
  unfold C.distance. cbn.
  replace (5 - 15) with (- (10)) by lra. rewrite Rminus_diag.
  rewrite hypot_0_r, Rabs_Ropp, Rabs_right by lra. lra.
Defined.

(** X8.  After a [collide] of two overlapping particles that returns, the
    particles no longer overlap: the centres are further apart than the sum
    of the radii by the amount they overlapped before. *)
Theorem X8_collide_separates :
  forall (e : R) (a b a' b' : C.Particle),
  C._is_colliding a b = true -> C.collide e a b = Ok (a', b') ->
  C._overlap_amount a' b' = - C._overlap_amount a b /\
  C._is_colliding a' b' = false.
Proof.
  intros e a b a' b' Hc H.
  pose proof (C2DFacts.collide_distance e a b a' b' Hc H) as Hd.
  destruct (C2DFacts.collide_constants e a b (a', b') H) as [Ha Hb].
  cbn [fst snd] in Ha, Hb.
  apply constants_radius in Ha. apply constants_radius in Hb.
  pose proof (C2DFacts.is_colliding_overlap a b Hc) as Ho.
  assert (Hov : C._overlap_amount a' b' = - C._overlap_amount a b).
  { rewrite (C2DFacts.overlap_distance a' b'), Hd, Ha, Hb.
    rewrite (C2DFacts.overlap_distance a b). ring. }
  split; [exact Hov|].
  apply C2DFacts.is_colliding_false. lra.
Qed.

Lemma head_on_colliding : C._is_colliding head_on_a head_on_b = true.
Proof. apply C2DFacts.is_colliding_true. rewrite head_on_overlap. lra. Qed.

Lemma head_on_collide_ok e :
  C.collide e head_on_a head_on_b
  = Ok (C._push_apart
          (C.with_final_vec e head_on_a (fst (C.final_vecs head_on_a head_on_b)))
          (C.with_final_vec e head_on_b (snd (C.final_vecs head_on_a head_on_b)))).
Proof.
  apply C2DFacts.collide_ok.
  - exact head_on_colliding.
  - rewrite head_on_distance. lra.
  - cbn. lra.
Qed.

Lemma X8_collide_separates_witness :
  let r := C._push_apart
    (C.with_final_vec C.ELASTICITY_COEFFICIENT head_on_a
       (fst (C.final_vecs head_on_a head_on_b)))
    (C.with_final_vec C.ELASTICITY_COEFFICIENT head_on_b
       (snd (C.final_vecs head_on_a head_on_b))) in
  C._overlap_amount (fst r) (snd r) = - C._overlap_amount head_on_a head_on_b /\
  C._is_colliding (fst r) (snd r) = false.
Proof.
  intros r.
  apply (X8_collide_separates C.ELASTICITY_COEFFICIENT head_on_a head_on_b).
  - exact head_on_colliding.
  - rewrite <- surjective_pairing. apply head_on_collide_ok.
Defined.

(** X9.  A [collide] of two overlapping particles that returns multiplies
    the kinetic energy of the pair by the square of the elasticity
    coefficient (not zero): the exchange along the normal keeps the energy,
    and the elasticity lowers each speed.  So with positive masses and an
    elasticity between 0 and 1 the energy does not grow. *)
Theorem X9_collide_scales_energy :
  forall (e : R) (a b a' b' : C.Particle),
  e <> 0 -> C._is_colliding a b = true -> C.collide e a b = Ok (a', b') ->
  C.kinetic_energy a' + C.kinetic_energy b'
  = e * e * (C.kinetic_energy a + C.kinetic_energy b) /\
  (0 < C._mass a -> 0 < C._mass b -> -1 <= e <= 1 ->
   C.kinetic_energy a' + C.kinetic_energy b'
   <= C.kinetic_energy a + C.kinetic_energy b).
Proof.
  intros e a b a' b' He Hc H.
  destruct (Req_dec_T (C.distance a b) 0) as [Hd | Hd].
  { rewrite (C2DFacts.collide_zero_distance e a b Hc Hd) in H. discriminate. }
  destruct (Req_dec_T (C._mass a + C._mass b) 0) as [Hm | Hm].
  { rewrite (C2DFacts.collide_masses_cancel e a b Hc Hd Hm) in H.
    discriminate. }
  rewrite (C2DFacts.collide_ok e a b Hc Hd Hm) in H. apply Ok_inj in H.
  assert (Ha : a' = fst (a', b')) by reflexivity.
  assert (Hb : b' = snd (a', b')) by reflexivity.
  rewrite <- H in Ha, Hb. clear H.
  assert (Heq : C.kinetic_energy a' + C.kinetic_energy b'
                = e * e * (C.kinetic_energy a + C.kinetic_energy b)).
  { unfold C.kinetic_energy. rewrite Ha, Hb. unfold C._push_apart.
    cbn [fst snd C.set_pos C._mass C._speed_x C._speed_y].
    destruct (C2DFacts.with_final_vec_velocity e a (fst (C.final_vecs a b)) He)
      as [-> ->].
    destruct (C2DFacts.with_final_vec_velocity e b (snd (C.final_vecs a b)) He)
      as [-> ->].
    destruct (C2DFacts.with_final_vec_frame e a (fst (C.final_vecs a b)))
      as (_ & _ & -> & _).
    destruct (C2DFacts.with_final_vec_frame e b (snd (C.final_vecs a b)))
      as (_ & _ & -> & _).
    unfold C.final_vecs, C.dot, C.vadd, C.scale, C.magnitude. cbv zeta.
    cbn [C._x_comp C._y_comp fst snd]. rewrite hypot_perp.
    fold (C.distance a b).
    pose proof (hypot_sqr (C._x a - C._x b) (C._y a - C._y b)) as Hs.
    fold (C.distance a b) in Hs.
    set (h := C.distance a b) in *.
    set (dx := C._x a - C._x b) in *. set (dy := C._y a - C._y b) in *.
    assert (Hs' : h * h = dx * dx + dy * dy) by lra.
    field_simplify_eq; [| split; assumption].
    ring [Hs']. }
  split; [exact Heq|].
  intros Hma Hmb Hee. rewrite Heq.
  assert (Hk : 0 <= C.kinetic_energy a + C.kinetic_energy b).
  { unfold C.kinetic_energy.
    pose proof (Rle_0_sqr (C._speed_x a)). pose proof (Rle_0_sqr (C._speed_y a)).
    pose proof (Rle_0_sqr (C._speed_x b)). pose proof (Rle_0_sqr (C._speed_y b)).
    unfold Rsqr in *. nra. }
  assert (He2 : e * e <= 1) by nra.
  nra.
Qed.

Lemma X9_collide_scales_energy_witness :
  let r := C._push_apart
    (C.with_final_vec C.ELASTICITY_COEFFICIENT head_on_a
       (fst (C.final_vecs head_on_a head_on_b)))
    (C.with_final_vec C.ELASTICITY_COEFFICIENT head_on_b
       (snd (C.final_vecs head_on_a head_on_b))) in
  C.kinetic_energy (fst r) + C.kinetic_energy (snd r)
  <= C.kinetic_energy head_on_a + C.kinetic_energy head_on_b.
Proof.
  intros r.
  apply (X9_collide_scales_energy C.ELASTICITY_COEFFICIENT head_on_a head_on_b
           (fst r) (snd r)).
  - unfold C.ELASTICITY_COEFFICIENT. lra.
  - exact head_on_colliding.
  - rewrite <- surjective_pairing. apply head_on_collide_ok.
  - cbn. lra.
  - cbn. lra.
  - unfold C.ELASTICITY_COEFFICIENT. lra.
Defined.

(** X10.  A [collide] of two overlapping particles that returns keeps, up
    to the elasticity coefficient (not zero), the component of each velocity
    along the tangent of the collision, and reverses the component along
    the normal of the velocity of one particle relative to the other. *)
Theorem X10_collide_reverses_normal_velocity :
  forall (e : R) (a b a' b' : C.Particle),
  e <> 0 -> C._is_colliding a b = true -> C.collide e a b = Ok (a', b') ->
  C.dot (C.velocity a') (C.tangent a b)
  = e * C.dot (C.velocity a) (C.tangent a b) /\
  C.dot (C.velocity b') (C.tangent a b)
  = e * C.dot (C.velocity b) (C.tangent a b) /\
  C.dot (C.velocity a') (C.normal a b) - C.dot (C.velocity b') (C.normal a b)
  = - e * (C.dot (C.velocity a) (C.normal a b)
           - C.dot (C.velocity b) (C.normal a b)).
Proof.
  intros e a b a' b' He Hc H.
  destruct (Req_dec_T (C.distance a b) 0) as [Hd | Hd].
  { rewrite (C2DFacts.collide_zero_distance e a b Hc Hd) in H. discriminate. }
  destruct (Req_dec_T (C._mass a + C._mass b) 0) as [Hm | Hm].
  { rewrite (C2DFacts.collide_masses_cancel e a b Hc Hd Hm) in H.
    discriminate. }
  rewrite (C2DFacts.collide_ok e a b Hc Hd Hm) in H. apply Ok_inj in H.
  assert (Ha : a' = fst (a', b')) by reflexivity.
  assert (Hb : b' = snd (a', b')) by reflexivity.
  rewrite <- H in Ha, Hb. clear H.
  unfold C.velocity. rewrite Ha, Hb. unfold C._push_apart.
  cbn [fst snd C.set_pos C._speed_x C._speed_y].
  destruct (C2DFacts.with_final_vec_velocity e a (fst (C.final_vecs a b)) He)
    as [-> ->].
  destruct (C2DFacts.with_final_vec_velocity e b (snd (C.final_vecs a b)) He)
    as [-> ->].
  unfold C.final_vecs, C.normal, C.tangent, C.dot, C.vadd, C.scale,
    C.magnitude. cbv zeta.
  cbn [C._x_comp C._y_comp fst snd]. rewrite hypot_perp.
  fold (C.distance a b).
  pose proof (hypot_sqr (C._x a - C._x b) (C._y a - C._y b)) as Hs.
  fold (C.distance a b) in Hs.
  set (h := C.distance a b) in *.
  set (dx := C._x a - C._x b) in *. set (dy := C._y a - C._y b) in *.
  assert (Hs' : h * h = dx * dx + dy * dy) by lra.
  repeat split; (field_simplify_eq; [| try split; assumption]); ring [Hs'].
Qed.

Lemma X10_collide_reverses_normal_velocity_witness :
  let r := C._push_apart
    (C.with_final_vec C.ELASTICITY_COEFFICIENT head_on_a
       (fst (C.final_vecs head_on_a head_on_b)))
    (C.with_final_vec C.ELASTICITY_COEFFICIENT head_on_b
       (snd (C.final_vecs head_on_a head_on_b))) in
  C.dot (C.velocity (fst r)) (C.tangent head_on_a head_on_b)
  = C.ELASTICITY_COEFFICIENT
    * C.dot (C.velocity head_on_a) (C.tangent head_on_a head_on_b) /\
  C.dot (C.velocity (snd r)) (C.tangent head_on_a head_on_b)
  = C.ELASTICITY_COEFFICIENT
    * C.dot (C.velocity head_on_b) (C.tangent head_on_a head_on_b) /\
  C.dot (C.velocity (fst r)) (C.normal head_on_a head_on_b)
  - C.dot (C.velocity (snd r)) (C.normal head_on_a head_on_b)
  = - C.ELASTICITY_COEFFICIENT
    * (C.dot (C.velocity head_on_a) (C.normal head_on_a head_on_b)
       - C.dot (C.velocity head_on_b) (C.normal head_on_a head_on_b)).
Proof.
  intros r.
  apply (X10_collide_reverses_normal_velocity C.ELASTICITY_COEFFICIENT
           head_on_a head_on_b (fst r) (snd r)).
  - unfold C.ELASTICITY_COEFFICIENT. lra.
  - exact head_on_colliding.
  - rewrite <- surjective_pairing. apply head_on_collide_ok.
Defined.

(** ** [2D_Collisions.py]: reflection and integration *)

(** X11.  [_bounce] leaves a particle that is strictly inside the window on
    both axes exactly as it is; for any other particle it multiplies the
    speed by the elasticity coefficient (not zero) once, whether one or two
    edges are reached, and leaves the velocity components in step with the
    angle and the speed. *)
Theorem X11_bounce_inside_or_at_an_edge :
  forall (e w h : R) (p : C.Particle),
  e <> 0 ->
  (C._radius p < C._x p < w - C._radius p /\
   C._radius p < C._y p < h - C._radius p ->
   C._bounce e p (w, h) = p) /\
  (~ (C._radius p < C._x p < w - C._radius p /\
      C._radius p < C._y p < h - C._radius p) ->
   C._speed (C._bounce e p (w, h)) = C._speed p * e /\
   C.consistent (C._bounce e p (w, h))).
Proof.
  intros e w h p He. unfold C._bounce. split.
  - intros [Hx Hy].
    destruct (Rle_dec _ _); [lra|]. destruct (Rge_dec _ _); [lra|].
    destruct (Rle_dec _ _); [lra|]. destruct (Rge_dec _ _); [lra|].
    reflexivity.
  - intros Hout.
    assert (Hs : forall q, C._speed (C._apply_elasticity e q) = C._speed q * e).
    { intros q. unfold C._apply_elasticity, C._recalculate_speed_components.
      cbn. rewrite (truthy_nonzero e He). reflexivity. }
    destruct (Rle_dec (C._y p) (C._radius p));
      [split; [rewrite Hs; reflexivity | apply recalculate_consistent]|].
    destruct (Rge_dec (C._y p) (h - C._radius p));
      [split; [rewrite Hs; reflexivity | apply recalculate_consistent]|].
    destruct (Rle_dec (C._x p) (C._radius p));
      [split; [rewrite Hs; reflexivity | apply recalculate_consistent]|].
    destruct (Rge_dec (C._x p) (w - C._radius p));
      [split; [rewrite Hs; reflexivity | apply recalculate_consistent]|].
    exfalso. apply Hout. lra.
Qed.

Lemma X11_bounce_inside_or_at_an_edge_witness :
  C._bounce C.ELASTICITY_COEFFICIENT head_on_a (800, 800) = head_on_a /\
  C._speed (C._bounce C.ELASTICITY_COEFFICIENT corner_body (800, 800))
  = C._speed corner_body * C.ELASTICITY_COEFFICIENT.
Proof.
  assert (He : C.ELASTICITY_COEFFICIENT <> 0)
    by (unfold C.ELASTICITY_COEFFICIENT; lra).
  split.
  - apply (proj1 (X11_bounce_inside_or_at_an_edge C.ELASTICITY_COEFFICIENT
                    800 800 head_on_a He)).
    cbn. lra.
  - apply (proj2 (X11_bounce_inside_or_at_an_edge C.ELASTICITY_COEFFICIENT
                    800 800 corner_body He)).
    cbn. lra.
Defined.

(** X12.  A step of free flight: when the centre after integration is
    strictly inside the window, [move] advances the centre by the velocity
    components, multiplies the speed by the drag coefficient (not zero),
    keeps the angle and sets the components from them. *)
Theorem X12_move_in_free_flight :
  forall (e d w h : R) (p : C.Particle),
  d <> 0 ->
  C._radius p < C._x p + C._speed_x p < w - C._radius p ->
  C._radius p < C._y p + C._speed_y p < h - C._radius p ->
  let q := C.move e d p (w, h) in
  C._x q = C._x p + C._speed_x p /\ C._y q = C._y p + C._speed_y p /\
  C._speed q = C._speed p * d /\ C._angle q = C._angle p /\
  C._speed_x q = cos (C._angle p) * (C._speed p * d) /\
  C._speed_y q = sin (C._angle p) * (C._speed p * d).
Proof.
  intros e d w h p Hd Hx Hy. unfold C.move, C._bounce. cbn.
  destruct (Rle_dec _ _); [lra|]. destruct (Rge_dec _ _); [lra|].
  destruct (Rle_dec _ _); [lra|]. destruct (Rge_dec _ _); [lra|].
  cbn. rewrite (truthy_nonzero d Hd). repeat split.
Qed.

Lemma X12_move_in_free_flight_witness :
  let q := C.move C.ELASTICITY_COEFFICIENT C.DRAG_COEFFICIENT head_on_a
             (800, 800) in
  C._x q = C._x head_on_a + C._speed_x head_on_a /\
  C._y q = C._y head_on_a + C._speed_y head_on_a /\
  C._speed q = C._speed head_on_a * C.DRAG_COEFFICIENT /\
  C._angle q = C._angle head_on_a /\
  C._speed_x q
  = cos (C._angle head_on_a) * (C._speed head_on_a * C.DRAG_COEFFICIENT) /\
  C._speed_y q
  = sin (C._angle head_on_a) * (C._speed head_on_a * C.DRAG_COEFFICIENT).
Proof.
  apply (X12_move_in_free_flight C.ELASTICITY_COEFFICIENT C.DRAG_COEFFICIENT
           800 800 head_on_a).
  - unfold C.DRAG_COEFFICIENT. lra.
  - cbn. rewrite cos_0. lra.
  - cbn. rewrite sin_0. lra.
Defined.

(** ** [2D_Collisions.py]: a whole tick *)

(** A property of the element at one position survives an assignment that
    respects it. *)
Lemma at_list_set {A : Type} (P : A -> Prop) i k (v : A) l :
  (forall p, nth_error l k = Some p -> P p) -> (k = i -> P v) ->
  forall p, nth_error (list_set i v l) k = Some p -> P p.
Proof.
  intros Hl Hv p Hp. destruct (Nat.eq_dec i k) as [-> | Hne].
  - apply nth_error_list_set_eq in Hp. subst p. apply Hv. reflexivity.
  - rewrite nth_error_list_set_neq in Hp by exact Hne. apply Hl, Hp.
Qed.

Lemma move_consistent e d p surface : C.consistent (C.move e d p surface).
Proof. apply recalculate_consistent. Qed.

Lemma collide_consistent e a b r :
  C.collide e a b = Ok r ->
  (C.consistent a -> C.consistent (fst r)) /\
  (C.consistent b -> C.consistent (snd r)).
Proof.
  intros H. destruct (C._is_colliding a b) eqn:Hc.
  - destruct (Req_dec_T (C.distance a b) 0) as [Hd | Hd].
    { rewrite (C2DFacts.collide_zero_distance e a b Hc Hd) in H.
      discriminate. }
    destruct (Req_dec_T (C._mass a + C._mass b) 0) as [Hm | Hm].
    { rewrite (C2DFacts.collide_masses_cancel e a b Hc Hd Hm) in H.
      discriminate. }
    rewrite (C2DFacts.collide_ok e a b Hc Hd Hm) in H. apply Ok_inj in H.
    subst r. split; intros _; split; reflexivity.
  - rewrite (C2DFacts.collide_not_colliding e a b Hc) in H.
    apply Ok_inj in H. subst r. split; auto.
Qed.

Lemma same_constants_same_length (ps ps' : list C.Particle) :
  map C.constants ps' = map C.constants ps -> length ps' = length ps.
Proof.
  intros H. apply (f_equal (@length _)) in H.
  rewrite !length_map in H. exact H.
Qed.

Lemma collide_rest_consistent e index js :
  forall ps ps', C.collide_rest e index js ps = Ok ps' ->
  forall k, (forall p, nth_error ps k = Some p -> C.consistent p) ->
            (forall p, nth_error ps' k = Some p -> C.consistent p).
Proof.
  induction js as [| j js IH]; intros ps ps' H k Hk; cbn [C.collide_rest] in H.
  - apply Ok_inj in H. subst ps'. exact Hk.
  - destruct (nth_error ps index) as [particle |] eqn:Hi;
      [| apply Ok_inj in H; subst ps'; exact Hk].
    destruct (nth_error ps j) as [other_particle |] eqn:Hj;
      [| apply Ok_inj in H; subst ps'; exact Hk].
    destruct (C.collide e particle other_particle) as [r | err] eqn:Hcol;
      cbn [bind] in H; [| discriminate].
    destruct (collide_consistent e _ _ r Hcol) as [H1 H2].
    apply (IH _ _ H k).
    apply at_list_set; [apply at_list_set; [exact Hk|] |].
    + intros ->. apply H1, Hk, Hi.
    + intros ->. apply H2, Hk, Hj.
Qed.

Lemma particles_loop_consistent e d surface indices :
  forall ps ps',
  (forall i, In i indices -> (i < length ps)%nat) ->
  C.particles_loop e d indices surface ps = Ok ps' ->
  forall k, (forall p, nth_error ps k = Some p -> C.consistent p) \/
            In k indices ->
            (forall p, nth_error ps' k = Some p -> C.consistent p).
Proof.
  induction indices as [| index indices IH]; intros ps ps' Hrange H k Hk;
    cbn [C.particles_loop] in H.
  - apply Ok_inj in H. subst ps'. destruct Hk as [Hk | []]. exact Hk.
  - destruct (nth_error ps index) as [particle |] eqn:Hi.
    2:{ apply nth_error_None in Hi.
        specialize (Hrange index (or_introl eq_refl)). lia. }
    cbv zeta in H.
    destruct (C.collide_rest e index _ _) as [ps2 |] eqn:Hrest;
      cbn [bind] in H; [| discriminate].
    assert (Hlen : length ps2 = length ps).
    { rewrite (same_constants_same_length _ _
                 (C2DFacts.collide_rest_constants _ _ _ _ _ Hrest)).
      apply length_list_set. }
    apply (IH ps2 ps'); [| exact H |].
    + intros i Hin. rewrite Hlen. apply Hrange. right. exact Hin.
    + assert (Hstep : (forall p, nth_error ps k = Some p -> C.consistent p) \/
                      k = index ->
                      forall p, nth_error ps2 k = Some p -> C.consistent p).
      { intros Hcase. apply (collide_rest_consistent _ _ _ _ _ Hrest).
        destruct Hcase as [Hold | ->].
        - apply at_list_set; [exact Hold |]. intros _. apply move_consistent.
        - intros p Hp. apply nth_error_list_set_eq in Hp. subst p.
          apply move_consistent. }
      destruct Hk as [Hold | [<- | Hin]].
      * left. apply Hstep. left. exact Hold.
      * left. apply Hstep. right. reflexivity.
      * right. exact Hin.
Qed.

(** X4.  After a tick that returns, the two forms of the velocity agree for
    every particle of the simulation, whatever they were before: the
    components [_speed_x] and [_speed_y] are the speed along the angle. *)
Theorem X4_tick_makes_velocities_consistent :
  forall (e d f : R) (sim sim' : C.Simulation) (mouse_pos : R * R),
  C._handle_events e d f sim mouse_pos = Ok sim' ->
  Forall C.consistent (C._particles sim').
Proof.
  intros e d f sim sim' mouse_pos H. unfold C._handle_events in H.
  cbv zeta in H.
  destruct (C.particles_loop e d _ _ _) as [ps |] eqn:Hloop;
    cbn [bind] in H; [| discriminate].
  apply Ok_inj in H. subst sim'. cbn [C._particles].
  pose proof (same_constants_same_length _ _
                (C2DFacts.particles_loop_constants _ _ _ _ _ _ Hloop)) as Hlen.
  apply Forall_forall. intros p Hin.
  destruct (In_nth_error _ _ Hin) as [k Hk].
  refine (particles_loop_consistent _ _ _ _ _ _ _ Hloop k _ p Hk).
  - intros i Hi. apply in_seq in Hi. lia.
  - right. apply in_seq. split; [lia|]. cbn.
    rewrite <- Hlen. apply nth_error_Some. rewrite Hk. discriminate.
Qed.

Lemma X4_tick_makes_velocities_consistent_witness :
  Forall C.consistent
    (C._particles
       (C.mkSimulation 800 800
          [C.move C.ELASTICITY_COEFFICIENT C.DRAG_COEFFICIENT wall_body
             (800, 800)] None)).
Proof.
  apply (X4_tick_makes_velocities_consistent C.ELASTICITY_COEFFICIENT
           C.DRAG_COEFFICIENT C.MOUSE_FLING_COEFFICIENT
           (C.mkSimulation 800 800 [wall_body] None) _ (0, 0)).
  apply C2DFacts.handle_events_single.
Defined.

(** ** [2D_Collisions.py]: selection *)

Lemma select_from_first_hit i ps coords j p :
  nth_error ps j = Some p -> C.hit coords p ->
  (forall j' p', (j' < j)%nat -> nth_error ps j' = Some p' ->
                 ~ C.hit coords p') ->
  C.select_from i ps coords = Some (i + j)%nat.
Proof.
  revert i j. induction ps as [| q rest IH]; intros i [| j] Hj Hp Hfirst;
    cbn in Hj; try discriminate; cbn [C.select_from].
  - injection Hj as ->.
    destruct (Rle_dec _ _) as [_ | Hn]; [f_equal; lia | contradiction].
  - destruct (Rle_dec _ _) as [Hq | _].
    + exfalso. apply (Hfirst 0%nat q); [lia | reflexivity | exact Hq].
    + rewrite (IH (S i) j Hj Hp); [f_equal; lia|].
      intros j' p' Hlt Hn. apply (Hfirst (S j') p'); [lia | exact Hn].
Qed.

(** X13.  [_select_particle] of [2D_Collisions.py] selects the first
    particle, in list order, that contains the point: if the particle at
    position [j] contains it and no earlier one does, position [j] becomes
    the selection, whatever was selected before, and the particles and the
    window are left as they were. *)
Theorem X13_select_particle_takes_first_hit :
  forall (sim : C.Simulation) (coords : R * R) (j : nat) (p : C.Particle),
  nth_error (C._particles sim) j = Some p -> C.hit coords p ->
  (forall j' p', (j' < j)%nat -> nth_error (C._particles sim) j' = Some p' ->
                 ~ C.hit coords p') ->
  C._select_particle sim coords
  = C.mkSimulation (C._width sim) (C._height sim) (C._particles sim) (Some j).
Proof.
  intros sim coords j p Hj Hp Hfirst. unfold C._select_particle.
  rewrite (select_from_first_hit 0 _ coords j p Hj Hp Hfirst). reflexivity.
Qed.

Lemma click_hits_under_b : C.hit click under_b.
Proof. unfold C.hit. cbn. apply hypot_le_iff; lra. Qed.

Lemma far_misses_under_a : ~ C.hit (300, 300) under_a.
Proof.
  unfold C.hit. cbn. intros H. apply hypot_le_iff in H; lra.
Qed.

Lemma X13_select_particle_takes_first_hit_witness :
  C._select_particle (C.mkSimulation 800 800 [under_a; under_b] (Some 1%nat))
    click
  = C.mkSimulation 800 800 [under_a; under_b] (Some 0%nat).
Proof.
  apply (X13_select_particle_takes_first_hit
           (C.mkSimulation 800 800 [under_a; under_b] (Some 1%nat)) click
           0%nat under_a).
  - reflexivity.
  - exact click_hits_under_a.
  - intros j' p' Hlt. lia.
Defined.

Lemma mp2_select_from_no_hit i ps coords sel :
  (forall p, In p ps -> ~ M.hit coords p) ->
  M.select_from i ps coords sel = sel.
Proof.
  revert i. induction ps as [| q rest IH]; intros i H; [reflexivity|].
  destruct coords as [mx my]. cbn [M.select_from].
  destruct (Rle_dec _ _) as [Hq | _].
  - exfalso. apply (H q); [left; reflexivity | exact Hq].
  - apply IH. intros p Hin. apply H. right. exact Hin.
Qed.

(** X14.  A click that no particle contains changes nothing, in either
    script: the simulation is returned as it was, and a particle selected
    before stays selected. *)
Theorem X14_click_on_nothing_keeps_selection :
  forall (sim : C.Simulation) (sim2 : M.Simulation) (coords : R * R),
  ((forall p, In p (C._particles sim) -> ~ C.hit coords p) ->
   C._select_particle sim coords = sim) /\
  ((forall p, In p (M._particles sim2) -> ~ M.hit coords p) ->
   M._select_particle sim2 coords = sim2).
Proof.
  intros sim sim2 coords. split; intros H.
  - unfold C._select_particle.
    rewrite (proj2 (C2DFacts.select_from_none 0 _ coords) H). reflexivity.
  - unfold M._select_particle. rewrite mp2_select_from_no_hit by exact H.
    destruct sim2. reflexivity.
Qed.

Lemma far_misses_under_a2 : ~ M.hit (300, 300) under_a2.
Proof.
  unfold M.hit. cbn. intros H. apply hypot_le_iff in H; lra.
Qed.

Lemma X14_click_on_nothing_keeps_selection_witness :
  C._select_particle (C.mkSimulation 800 800 [under_a] (Some 0%nat)) (300, 300)
  = C.mkSimulation 800 800 [under_a] (Some 0%nat) /\
  M._select_particle (M.mkSimulation [under_a2] 800 800 (Some 0%nat)) (300, 300)
  = M.mkSimulation [under_a2] 800 800 (Some 0%nat).
Proof.
  destruct (X14_click_on_nothing_keeps_selection
              (C.mkSimulation 800 800 [under_a] (Some 0%nat))
              (M.mkSimulation [under_a2] 800 800 (Some 0%nat)) (300, 300))
    as [HC HM].
  split.
  - apply HC. intros p [<- | []]. exact far_misses_under_a.
  - apply HM. intros p [<- | []]. exact far_misses_under_a2.
Defined.

(** X15.  Pressing and releasing the mouse button is a round trip: when
    nothing is selected, [_select_particle] followed by
    [_deselect_particle] gives the simulation back as it was, whether the
    click hit a particle or not.  Whatever was selected,
    [_deselect_particle] leaves nothing selected and does not touch the
    particles, and the tick that follows does not depend on the mouse
    position. *)
Theorem X15_select_then_deselect :
  forall (e d f : R) (sim : C.Simulation) (coords mouse_pos mouse_pos' : R * R),
  (C._selected_particle sim = None ->
   C._deselect_particle (C._select_particle sim coords) = sim) /\
  C._selected_particle (C._deselect_particle sim) = None /\
  C._particles (C._deselect_particle sim) = C._particles sim /\
  C._handle_events e d f (C._deselect_particle sim) mouse_pos
  = C._handle_events e d f (C._deselect_particle sim) mouse_pos'.
Proof.
  intros e d f sim coords mouse_pos mouse_pos'. split.
  - intros Hnone. unfold C._select_particle.
    destruct (C.select_from 0 (C._particles sim) coords) as [i |].
    + unfold C._deselect_particle. cbn. destruct sim. cbn in Hnone.
      subst. reflexivity.
    + unfold C._deselect_particle. rewrite Hnone. reflexivity.
  - unfold C._deselect_particle, C._handle_events.
    destruct (C._selected_particle sim) eqn:Hs; cbn; rewrite ?Hs;
      repeat split.
Qed.

Lemma X15_select_then_deselect_witness :
  C._deselect_particle
    (C._select_particle (C.mkSimulation 800 800 [under_a; under_b] None) click)
  = C.mkSimulation 800 800 [under_a; under_b] None.
Proof.
  apply (proj1 (X15_select_then_deselect 0 0 0
                  (C.mkSimulation 800 800 [under_a; under_b] None)
                  click (0, 0) (0, 0))).
  reflexivity.
Defined.

(** ** [2D_Collisions.py]: the initial particles *)

Lemma IZR_sub_800 r : IZR (800 - r) = 800 - IZR r.
Proof. rewrite minus_IZR. reflexivity. Qed.

(** X16.  Whatever [random] returns within the ranges asked for, every
    particle made by [_generate_particles] in the 800 x 800 window has a
    positive radius and a positive mass, lies within
    [radius, 800 - radius] on both axes, has velocity components that agree
    with its angle and speed, and has colour components between 0 and 255;
    there is one particle per round. *)
Theorem X16_generated_particles_are_valid :
  forall draws : list C.Draws,
  Forall (C.possible_draws 800 800) draws ->
  length (C._generate_particles draws) = length draws /\
  Forall (fun p =>
            0 < C._radius p /\ 0 < C._mass p /\ C.in_bounds p (800, 800) /\
            C.consistent p /\
            let '(red, green, blue) := C._color p in
            (red = 255 /\ 0 <= green <= 255 /\ 0 <= blue <= 255)%Z)
         (C._generate_particles draws).
Proof.
  intros draws H. unfold C._generate_particles. split; [apply length_map|].
  apply Forall_map. revert H. apply Forall_impl.
  intros [r px py an sp de] Hd. unfold C.possible_draws in Hd.
  cbn [C.drawn_radius C.drawn_pos_x C.drawn_pos_y C.drawn_angle
       C.drawn_speed C.drawn_density] in *.
  destruct Hd as (Hr & Hx & Hy & Han & Hsp & Hde).
  assert (Hr' : 2 <= IZR r) by (apply (IZR_le 2); lia).
  assert (Hde' : 1 <= IZR de) by (apply (IZR_le 1); lia).
  assert (Hpow : 1 <= IZR (r ^ 2)) by (apply (IZR_le 1); nia).
  assert (Hpx : IZR r <= IZR px <= 800 - IZR r).
  { split; [apply IZR_le; lia|].
    rewrite <- IZR_sub_800. apply IZR_le. lia. }
  assert (Hpy : IZR r <= IZR py <= 800 - IZR r).
  { split; [apply IZR_le; lia|].
    rewrite <- IZR_sub_800. apply IZR_le. lia. }
  pose proof PI_RGT_0 as Hpi.
  unfold C.in_bounds, C.consistent, C.Particle_init.
  cbn [fst snd C._x C._y C._radius C._mass C._color C._speed_x C._speed_y
       C._speed C._angle].
  split; [lra|]. split.
  { apply Rmult_lt_0_compat; [apply Rmult_lt_0_compat|]; lra. }
  split; [split; assumption|]. split; [split; reflexivity|].
  split; [reflexivity|]. lia.
Qed.

Lemma X16_generated_particles_are_valid_witness :
  length (C._generate_particles [C.mkDraws 5 100 200 0 (1 / 2) 3]) = 1%nat /\
  Forall (fun p =>
            0 < C._radius p /\ 0 < C._mass p /\ C.in_bounds p (800, 800) /\
            C.consistent p /\
            let '(red, green, blue) := C._color p in
            (red = 255 /\ 0 <= green <= 255 /\ 0 <= blue <= 255)%Z)
         (C._generate_particles [C.mkDraws 5 100 200 0 (1 / 2) 3]).
Proof.
  apply (X16_generated_particles_are_valid [C.mkDraws 5 100 200 0 (1 / 2) 3]).
  constructor; [| constructor].
  unfold C.possible_draws.
  cbn [C.drawn_radius C.drawn_pos_x C.drawn_pos_y C.drawn_angle
       C.drawn_speed C.drawn_density].
  pose proof PI_RGT_0. repeat split; try lia; lra.
Defined.

(** ** [my_physics2.py]: integration *)

Lemma cos_minus_PI2 : cos (- PI / 2) = 0.
Proof.
  replace (- PI / 2) with (- (PI / 2)) by field. rewrite cos_neg. apply cos_PI2.
Qed.

Lemma sin_minus_PI2 : sin (- PI / 2) = -1.
Proof.
  replace (- PI / 2) with (- (PI / 2)) by field. rewrite sin_neg, sin_PI2.
  reflexivity.
Qed.

Lemma gravity_velocity g p :
  M.velocity (M._apply_gravity g p)
  = (fst (M.velocity p), snd (M.velocity p) + g) /\
  M.x (M._apply_gravity g p) = M.x p /\ M.y (M._apply_gravity g p) = M.y p /\
  M.radius (M._apply_gravity g p) = M.radius p.
Proof.
  unfold M._apply_gravity, M.velocity. cbv zeta.
  cbn [M.x M.y M.radius M.angle M.speed fst snd].
  rewrite atan2_cos_hypot, <- Ropp_mult_distr_l, atan2_sin_hypot.
  rewrite cos_minus_PI2, sin_minus_PI2.
  repeat split. f_equal; ring.
Qed.

(** X17.  [_apply_gravity] adds the gravity constant to the downward
    displacement per tick (y grows downwards on the screen) and leaves the
    horizontal displacement and the centre as they were. *)
Theorem X17_gravity_accelerates_downwards :
  forall (g : R) (p : M.Particle),
  M.velocity (M._apply_gravity g p)
  = (fst (M.velocity p), snd (M.velocity p) + g) /\
  M.x (M._apply_gravity g p) = M.x p /\ M.y (M._apply_gravity g p) = M.y p /\
  M.radius (M._apply_gravity g p) = M.radius p.
Proof. intros g p. apply gravity_velocity. Qed.

(** X18.  One [move] of [my_physics2.py]: the displacement of the particle
    is its old displacement times the drag coefficient, plus the gravity
    constant downwards, and the centre advances by exactly this new
    displacement. *)
Theorem X18_move_applies_drag_then_gravity :
  forall (d g : R) (p : M.Particle),
  M.velocity (M.move d g p)
  = (d * fst (M.velocity p), d * snd (M.velocity p) + g) /\
  M.x (M.move d g p) = M.x p + d * fst (M.velocity p) /\
  M.y (M.move d g p) = M.y p + (d * snd (M.velocity p) + g).
Proof.
  intros d g p.
  set (q := M._apply_gravity g (M._apply_drag d p)).
  assert (Hq : M.velocity q
               = (d * fst (M.velocity p), d * snd (M.velocity p) + g)).
  { unfold q. rewrite (proj1 (gravity_velocity g (M._apply_drag d p))).
    unfold M.velocity, M._apply_drag. cbn [M.angle M.speed fst snd].
    f_equal; ring. }
  change (M.velocity (M.move d g p)) with (M.velocity q).
  change (M.x (M.move d g p)) with (M.x p + fst (M.velocity q)).
  change (M.y (M.move d g p)) with (M.y p + snd (M.velocity q)).
  rewrite Hq. repeat split.
Qed.

(** ** [my_physics2.py]: reflection *)

(** X19.  [bounce] of [my_physics2.py] treats the two axes one after the
    other: a particle that is beyond an edge by no more than the room
    between the two opposite edges, on one axis or on both, is inside the
    window afterwards, within [radius, dimension - radius] on both axes. *)
Theorem X19_bounce_brings_back_on_both_axes :
  forall (e w h : R) (p : M.Particle),
  3 * M.radius p - w <= M.x p <= 2 * w - 3 * M.radius p ->
  3 * M.radius p - h <= M.y p <= 2 * h - 3 * M.radius p ->
  M.in_bounds (M.bounce e p (w, h)) (w, h).
Proof.
  intros e w h p Hx Hy. unfold M.in_bounds, M.bounce. cbn [fst snd].
  destruct (Rle_dec (M.x p) (M.radius p));
    [| destruct (Rge_dec (M.x p) (w - M.radius p))];
    cbn [M.apply_elasticity M.x M.y M.radius M.angle M.speed];
    (destruct (Rle_dec (M.y p) (M.radius p));
     [| destruct (Rge_dec (M.y p) (h - M.radius p))]);
    cbn [M.apply_elasticity M.x M.y M.radius M.angle M.speed]; lra.
Qed.

Lemma X19_bounce_brings_back_on_both_axes_witness :
  M.in_bounds (M.bounce M.ELASTICITY_COEFFICIENT corner_body2 (800, 800))
    (800, 800).
Proof.
  apply (X19_bounce_brings_back_on_both_axes M.ELASTICITY_COEFFICIENT 800 800
           corner_body2); cbn; lra.
Defined.

(** X20.  [bounce] of [my_physics2.py] multiplies the speed by the
    elasticity coefficient once for each axis on which an edge is reached:
    not at all strictly inside the window, once at an edge, twice in a
    corner. *)
Theorem X20_bounce_loses_speed_per_axis :
  forall (e w h : R) (p : M.Particle),
  let x_inside := M.radius p < M.x p < w - M.radius p in
  let y_inside := M.radius p < M.y p < h - M.radius p in
  (x_inside -> y_inside -> M.bounce e p (w, h) = p) /\
  (~ x_inside -> y_inside -> M.speed (M.bounce e p (w, h)) = M.speed p * e) /\
  (x_inside -> ~ y_inside -> M.speed (M.bounce e p (w, h)) = M.speed p * e) /\
  (~ x_inside -> ~ y_inside ->
   M.speed (M.bounce e p (w, h)) = M.speed p * e * e).
Proof.
  intros e w h p x_inside y_inside. unfold x_inside, y_inside, M.bounce.
  repeat split; intros Hx Hy;
    (destruct (Rle_dec (M.x p) (M.radius p));
     [| destruct (Rge_dec (M.x p) (w - M.radius p))]);
    cbn [M.apply_elasticity M.x M.y M.radius M.angle M.speed];
    (destruct (Rle_dec (M.y p) (M.radius p));
     [| destruct (Rge_dec (M.y p) (h - M.radius p))]);
    cbn [M.apply_elasticity M.x M.y M.radius M.angle M.speed];
    try reflexivity; try lra; exfalso; lra.
Qed.

Lemma X20_bounce_loses_speed_per_axis_witness :
  M.speed (M.bounce M.ELASTICITY_COEFFICIENT corner_body2 (800, 800))
  = M.speed corner_body2 * M.ELASTICITY_COEFFICIENT * M.ELASTICITY_COEFFICIENT
  /\ M.bounce M.ELASTICITY_COEFFICIENT head_on_a2 (800, 800) = head_on_a2.
Proof.
  split.
  - apply (proj2 (proj2 (proj2 (X20_bounce_loses_speed_per_axis
             M.ELASTICITY_COEFFICIENT 800 800 corner_body2)))); cbn; lra.
  - apply (proj1 (X20_bounce_loses_speed_per_axis
             M.ELASTICITY_COEFFICIENT 800 800 head_on_a2)); cbn; lra.
Defined.

(** ** [my_physics2.py]: collisions *)

(** X21.  After [collide] of [my_physics2.py] on two particles that overlap
    or touch, the centres are exactly the sum of the radii apart, also when
    the two centres coincided. *)
Theorem X21_collide_ends_at_radius_sum :
  forall (e : R) (a b : M.Particle),
  M.distance a b <= M.radius a + M.radius b ->
  M.distance (fst (M.collide e a b)) (snd (M.collide e a b))
  = M.radius a + M.radius b.
Proof. intros e a b H. apply MP2Facts.collide_ends_at_radius_sum, H. Qed.

Lemma stacked2_distance_0 : M.distance stacked_a2 stacked_b2 = 0.
Proof. unfold M.distance. cbn. rewrite Rminus_diag. apply hypot_0_0. Qed.

Lemma X21_collide_ends_at_radius_sum_witness :
  M.distance (fst (M.collide M.ELASTICITY_COEFFICIENT stacked_a2 stacked_b2))
             (snd (M.collide M.ELASTICITY_COEFFICIENT stacked_a2 stacked_b2))
  = M.radius stacked_a2 + M.radius stacked_b2.
Proof.
  apply (X21_collide_ends_at_radius_sum M.ELASTICITY_COEFFICIENT
           stacked_a2 stacked_b2).
  rewrite stacked2_distance_0. cbn. lra.
Defined.

Lemma mp2_distance_flip a b :
  hypot (M.x a - M.x b) (- (M.y a - M.y b)) = M.distance a b.
Proof. unfold M.distance, hypot. f_equal. ring. Qed.

(** X22.  [collide] of [my_physics2.py] on two particles that overlap or
    touch exchanges their speeds, each multiplied by the elasticity
    coefficient, and mirrors each direction at the tangent of the
    collision: relative to the collision angle, the component of the
    direction along the line of centres is reversed and the component
    across it is kept.  Two particles further apart are returned as they
    are. *)
Theorem X22_collide_swaps_speeds_and_mirrors :
  forall (e : R) (a b : M.Particle),
  let u := atan2 (- (M.y a - M.y b)) (M.x a - M.x b) in
  let a' := fst (M.collide e a b) in
  let b' := snd (M.collide e a b) in
  (M.distance a b <= M.radius a + M.radius b ->
   M.speed a' = M.speed b * e /\ M.speed b' = M.speed a * e /\
   cos (M.angle a' - u) = - cos (M.angle a - u) /\
   sin (M.angle a' - u) = sin (M.angle a - u) /\
   cos (M.angle b' - u) = - cos (M.angle b - u) /\
   sin (M.angle b' - u) = sin (M.angle b - u)) /\
  (M.distance a b > M.radius a + M.radius b -> a' = a /\ b' = b).
Proof.
  intros e a b u a' b'. unfold a', b', M.collide. cbv zeta.
  rewrite mp2_distance_flip. fold u.
  assert (Hmirror : forall al,
            cos (- al + 2 * (u + PI / 2) - u) = - cos (al - u) /\
            sin (- al + 2 * (u + PI / 2) - u) = sin (al - u)).
  { intros al.
    replace (- al + 2 * (u + PI / 2) - u) with (- (al - u) + PI) by field.
    rewrite neg_cos, neg_sin, cos_neg, sin_neg. split; ring. }
  split; intros H.
  - destruct (Rle_dec _ _) as [_ | Hn]; [| contradiction].
    cbn [fst snd M.apply_elasticity M.speed M.angle].
    destruct (Hmirror (M.angle a)) as [-> ->].
    destruct (Hmirror (M.angle b)) as [-> ->].
    repeat split.
  - destruct (Rle_dec _ _) as [Hle | _]; [lra|]. split; reflexivity.
Qed.

Lemma X22_collide_swaps_speeds_and_mirrors_witness :
  M.speed (fst (M.collide M.ELASTICITY_COEFFICIENT stacked_a2 stacked_b2))
  = M.speed stacked_b2 * M.ELASTICITY_COEFFICIENT /\
  M.speed (snd (M.collide M.ELASTICITY_COEFFICIENT stacked_a2 stacked_b2))
  = M.speed stacked_a2 * M.ELASTICITY_COEFFICIENT.
Proof.
  destruct (proj1 (X22_collide_swaps_speeds_and_mirrors
                     M.ELASTICITY_COEFFICIENT stacked_a2 stacked_b2))
    as (H1 & H2 & _).
  - rewrite stacked2_distance_0. cbn. lra.
  - split; assumption.
Defined.

(** ** [my_physics2.py]: following the pointer and selection *)

(** X23.  After [follow] of [my_physics2.py] the displacement per tick of
    the particle, on the screen axes, is the vector from its centre to the
    mouse cursor times the speed coefficient; the centre and the radius are
    not changed. *)
Theorem X23_follow_heads_for_the_cursor :
  forall (k : R) (p : M.Particle) (mouseX mouseY : R),
  M.velocity (M.follow k p (mouseX, mouseY))
  = ((mouseX - M.x p) * k, (mouseY - M.y p) * k) /\
  M.x (M.follow k p (mouseX, mouseY)) = M.x p /\
  M.y (M.follow k p (mouseX, mouseY)) = M.y p /\
  M.radius (M.follow k p (mouseX, mouseY)) = M.radius p.
Proof.
  intros k p mouseX mouseY. unfold M.follow, M.velocity.
  cbn [M.x M.y M.radius M.angle M.speed].
  rewrite <- Ropp_mult_distr_l, <- !Rmult_assoc.
  rewrite atan2_cos_hypot, atan2_sin_hypot.
  repeat split. f_equal. ring.
Qed.

(** X24.  [_select_particle] of [my_physics2.py] selects the last particle,
    in list order, that contains the point: if a particle contains it and
    no later one does, its position becomes the selection, whatever was
    selected before and whatever earlier particles contain the point. *)
Theorem X24_select_particle_takes_last_hit :
  forall (earlier later : list M.Particle) (q : M.Particle) (w h : R)
         (selected : option nat) (coords : R * R),
  M.hit coords q -> (forall p, In p later -> ~ M.hit coords p) ->
  M._select_particle (M.mkSimulation (earlier ++ q :: later) w h selected)
    coords
  = M.mkSimulation (earlier ++ q :: later) w h (Some (length earlier)).
Proof.
  intros earlier later q w h selected coords Hq Hlater.
  unfold M._select_particle. cbn [M._particles M._width M._height
                                  M._selected_particle].
  rewrite (MP2Facts.select_from_last_hit 0 earlier q later coords selected
             Hq Hlater).
  reflexivity.
Qed.

Lemma X24_select_particle_takes_last_hit_witness :
  M._select_particle
    (M.mkSimulation ([under_a2] ++ under_b2 :: []) 800 800 None) click
  = M.mkSimulation ([under_a2] ++ under_b2 :: []) 800 800
      (Some (length [under_a2])).
Proof.
  apply (X24_select_particle_takes_last_hit [under_a2] [] under_b2 800 800
           None click).
  - exact click_hits_under_b2.
  - intros p [].
Defined.

(** ** [my_physics2.py]: the initial particles *)

(** X25.  Whatever [random] returns within the ranges asked for, every
    particle that [_create_particles] appends in the 800 x 800 window has a
    radius of at least 10 and lies within [radius, 800 - radius] on both
    axes; the particles that were in the list stay in front, in order, and
    one particle is appended per round. *)
Theorem X25_created_particles_are_in_bounds :
  forall (particles : list M.Particle) (draws : list M.Draws),
  Forall (M.possible_draws 800 800) draws ->
  firstn (length particles) (M._create_particles particles draws) = particles /\
  length (M._create_particles particles draws)
  = (length particles + length draws)%nat /\
  Forall (fun p => 10 <= M.radius p /\ M.in_bounds p (800, 800))
         (skipn (length particles) (M._create_particles particles draws)).
Proof.
  intros particles draws H. unfold M._create_particles.
  split; [rewrite firstn_app, Nat.sub_diag, firstn_all, app_nil_r; reflexivity|].
  split; [rewrite length_app, length_map; reflexivity|].
  rewrite skipn_app, Nat.sub_diag, skipn_all. cbn [app skipn].
  apply Forall_map. revert H. apply Forall_impl.
  intros [an sp r de px py] Hd. unfold M.possible_draws in Hd.
  cbn [M.drawn_angle M.drawn_speed M.drawn_radius M.drawn_density
       M.drawn_x M.drawn_y] in *.
  destruct Hd as (Han & Hsp & Hr & Hde & Hx & Hy).
  unfold M.in_bounds, M.Particle_init. cbn [fst snd M.x M.y M.radius].
  split; [apply (IZR_le 10); lia|].
  split; (split; [apply IZR_le; lia|]);
    rewrite <- IZR_sub_800; apply IZR_le; lia.
Qed.

Lemma X25_created_particles_are_in_bounds_witness :
  Forall (fun p => 10 <= M.radius p /\ M.in_bounds p (800, 800))
    (skipn (length (@nil M.Particle))
       (M._create_particles [] [M.mkDraws 0 (1 / 2) 12 3 100 200])).
Proof.
  apply (X25_created_particles_are_in_bounds []
           [M.mkDraws 0 (1 / 2) 12 3 100 200]).
  constructor; [| constructor].
  unfold M.possible_draws.
  cbn [M.drawn_angle M.drawn_speed M.drawn_radius M.drawn_density
       M.drawn_x M.drawn_y].
  pose proof PI_RGT_0. repeat split; try lia; lra.
Defined.

(** ** [bouncing.py] *)

Lemma cos_PI_sub a : cos (PI - a) = - cos a.
Proof.
  replace (PI - a) with (- a + PI) by ring. rewrite neg_cos, cos_neg.
  reflexivity.
Qed.

Lemma sin_PI_sub a : sin (PI - a) = sin a.
Proof.
  replace (PI - a) with (- a + PI) by ring. rewrite neg_sin, sin_neg. ring.
Qed.

(** The factor [bounce] applies to the displacement along an axis. *)
Lemma bounce_step p w h :
  B.step (B.bounce p (w, h))
  = ((if B.between (B._size p) (B._x p) (w - B._size p) then 1 else -1)
     * fst (B.step p),
     (if B.between (B._size p) (B._y p) (h - B._size p) then 1 else -1)
     * snd (B.step p)).
Proof.
  unfold B.bounce, B.step.
  destruct (B.between (B._size p) (B._x p) (w - B._size p));
    cbn [negb B.set_angle B._x B._y B._size B._angle B._speed];
    destruct (B.between (B._size p) (B._y p) (h - B._size p));
    cbn [negb B.set_angle B._x B._y B._size B._angle B._speed fst snd];
    rewrite ?cos_neg, ?sin_neg, ?cos_PI_sub, ?sin_PI_sub; f_equal; ring.
Qed.

Lemma bounce_frame p w h :
  B._x (B.bounce p (w, h)) = B._x p /\ B._y (B.bounce p (w, h)) = B._y p /\
  B._size (B.bounce p (w, h)) = B._size p /\
  B._speed (B.bounce p (w, h)) = B._speed p.
Proof.
  unfold B.bounce.
  destruct (B.between (B._size p) (B._x p) (w - B._size p));
    cbn [negb B.set_angle B._x B._y B._size B._angle B._speed];
    destruct (B.between (B._size p) (B._y p) (h - B._size p));
    repeat split.
Qed.

(** X26.  [bounce] of [bouncing.py] never moves a particle and never
    changes its speed.  It reverses the displacement of the next [move]
    along each axis on which the centre is outside
    [size, dimension - size], and keeps it along the other axis; a particle
    inside on both axes keeps its displacement. *)
Theorem X26_bounce_reverses_the_step :
  forall (p : B.Particle) (w h : R),
  let q := B.bounce p (w, h) in
  B._x q = B._x p /\ B._y q = B._y p /\ B._size q = B._size p /\
  B._speed q = B._speed p /\
  B.step q
  = ((if B.between (B._size p) (B._x p) (w - B._size p) then 1 else -1)
     * fst (B.step p),
     (if B.between (B._size p) (B._y p) (h - B._size p) then 1 else -1)
     * snd (B.step p)).
Proof.
  intros p w h q. unfold q.
  destruct (bounce_frame p w h) as (Hx & Hy & Hs & Hv).
  repeat split; try assumption. apply bounce_step.
Qed.

(** X27.  In [bouncing.py] a particle that a [move] has taken outside the
    window on an axis is brought back by the next [move], after [bounce],
    to exactly where it was on that axis before it left. *)
Theorem X27_step_out_is_undone :
  forall (p : B.Particle) (w h : R),
  let q := B.move p in
  (B.between (B._size q) (B._x q) (w - B._size q) = false ->
   B._x (B.move (B.bounce q (w, h))) = B._x p) /\
  (B.between (B._size q) (B._y q) (h - B._size q) = false ->
   B._y (B.move (B.bounce q (w, h))) = B._y p).
Proof.
  intros p w h q.
  assert (Hmx : forall r, B._x (B.move r) = B._x r + fst (B.step r))
    by reflexivity.
  assert (Hmy : forall r, B._y (B.move r) = B._y r + snd (B.step r)).
  { intros r. unfold B.move, B.step. cbn. ring. }
  assert (Hsq : B.step q = B.step p) by reflexivity.
  destruct (bounce_frame q w h) as (Hx & Hy & _).
  pose proof (bounce_step q w h) as Hst.
  split; intros Hout; rewrite Hout in Hst.
  - rewrite Hmx, Hst, Hx, Hsq. unfold q. rewrite Hmx. cbn [fst]. ring.
  - rewrite Hmy, Hst, Hy, Hsq. unfold q. rewrite Hmy. cbn [snd]. ring.
Qed.

Lemma X27_step_out_is_undone_witness :
  B._x (B.move (B.bounce (B.move (B.Particle_init (11, 50) 10 PI 2))
                  (800, 800)))
  = B._x (B.Particle_init (11, 50) 10 PI 2).
Proof.
  apply (proj1 (X27_step_out_is_undone (B.Particle_init (11, 50) 10 PI 2)
                  800 800)).
  unfold B.between. cbn. rewrite cos_PI.
  destruct (Rle_dec 10 (11 + -1 * 2)); [lra | reflexivity].
Defined.

(** X28.  In [bouncing.py], [bounce] applied twice to a particle gives it
    the displacement it had at first: the centre is never corrected, so a
    particle that is still outside at the next frame is turned towards the
    outside again. *)
Theorem X28_bounce_twice_restores_the_step :
  forall (p : B.Particle) (w h : R),
  B.step (B.bounce (B.bounce p (w, h)) (w, h)) = B.step p.
Proof.
  intros p w h.
  destruct (bounce_frame p w h) as (Hx & Hy & Hs & _).
  rewrite bounce_step, Hx, Hy, Hs, bounce_step. cbn [fst snd].
  destruct (B.between (B._size p) (B._x p) (w - B._size p));
    destruct (B.between (B._size p) (B._y p) (h - B._size p));
    rewrite (surjective_pairing (B.step p)) at 3; f_equal; ring.
Qed.

(** ** Both scripts: what a tick and a collision leave alone *)

(** X2.  A tick never adds or removes a particle and never changes the
    window or the selection: after [_handle_events] the simulation has as
    many particles as before, the same width and height, and the same
    selected position, in both scripts. *)
Theorem X2_tick_keeps_particles_window_selection :
  forall (e d f g k : R) (sim sim' : C.Simulation) (sim2 : M.Simulation)
         (mouse_pos : R * R),
  C._handle_events e d f sim mouse_pos = Ok sim' ->
  (length (C._particles sim') = length (C._particles sim) /\
   C._width sim' = C._width sim /\ C._height sim' = C._height sim /\
   C._selected_particle sim' = C._selected_particle sim) /\
  (let sim2' := M._handle_events e d g k sim2 mouse_pos in
   length (M._particles sim2') = length (M._particles sim2) /\
   M._width sim2' = M._width sim2 /\ M._height sim2' = M._height sim2 /\
   M._selected_particle sim2' = M._selected_particle sim2).
Proof.
  intros e d f g k sim sim' sim2 mouse_pos H. split.
  - split.
    + apply same_constants_same_length.
      apply (C2DFacts.handle_events_constants _ _ _ _ _ _ H).
    + unfold C._handle_events in H. cbv zeta in H.
      destruct (C.particles_loop e d _ _ _) as [ps |];
        cbn [bind] in H; [| discriminate].
      apply Ok_inj in H. subst sim'. repeat split.
  - cbv zeta. split; [| repeat split].
    pose proof (MP2Facts.handle_events_radius e d g k sim2 mouse_pos) as Hr.
    apply (f_equal (@length _)) in Hr. rewrite !length_map in Hr. exact Hr.
Qed.

Lemma X2_tick_keeps_particles_window_selection_witness :
  length (C._particles
            (C.mkSimulation 800 800
               [C.move C.ELASTICITY_COEFFICIENT C.DRAG_COEFFICIENT wall_body
                  (800, 800)] None))
  = length (C._particles (C.mkSimulation 800 800 [wall_body] None)).
Proof.
  apply (X2_tick_keeps_particles_window_selection C.ELASTICITY_COEFFICIENT
           C.DRAG_COEFFICIENT C.MOUSE_FLING_COEFFICIENT 0 0
           (C.mkSimulation 800 800 [wall_body] None) _
           (M.mkSimulation [] 800 800 None) (0, 0)).
  apply C2DFacts.handle_events_single.
Defined.

(** X29.  A collision moves the two particles by the same amount in
    opposite directions: the point halfway between the two centres is
    where it was, after [collide] of [2D_Collisions.py] when it returns and
    after [collide] of [my_physics2.py], whatever the masses and radii. *)
Theorem X29_collide_keeps_the_midpoint :
  forall (e : R) (a b a' b' : C.Particle) (a2 b2 : M.Particle),
  C.collide e a b = Ok (a', b') ->
  (C._x a' + C._x b' = C._x a + C._x b /\
   C._y a' + C._y b' = C._y a + C._y b) /\
  (M.x (fst (M.collide e a2 b2)) + M.x (snd (M.collide e a2 b2))
   = M.x a2 + M.x b2 /\
   M.y (fst (M.collide e a2 b2)) + M.y (snd (M.collide e a2 b2))
   = M.y a2 + M.y b2).
Proof.
  intros e a b a' b' a2 b2 H. split.
  - destruct (C._is_colliding a b) eqn:Hc.
    + destruct (C2DFacts.collide_positions e a b (a', b') Hc H)
        as (Hxa & Hya & Hxb & Hyb).
      cbn [fst snd] in *. rewrite Hxa, Hya, Hxb, Hyb. split; ring.
    + rewrite (C2DFacts.collide_not_colliding e a b Hc) in H.
      apply Ok_inj in H. injection H as <- <-. split; reflexivity.
  - unfold M.collide. cbv zeta.
    destruct (Rle_dec _ _);
      cbn [fst snd M.apply_elasticity M.x M.y]; split; field.
Qed.

Lemma X29_collide_keeps_the_midpoint_witness :
  let r := C._push_apart
    (C.with_final_vec C.ELASTICITY_COEFFICIENT head_on_a
       (fst (C.final_vecs head_on_a head_on_b)))
    (C.with_final_vec C.ELASTICITY_COEFFICIENT head_on_b
       (snd (C.final_vecs head_on_a head_on_b))) in
  C._x (fst r) + C._x (snd r) = C._x head_on_a + C._x head_on_b /\
  C._y (fst r) + C._y (snd r) = C._y head_on_a + C._y head_on_b.
Proof.
  intros r.
  apply (X29_collide_keeps_the_midpoint C.ELASTICITY_COEFFICIENT
           head_on_a head_on_b (fst r) (snd r) head_on_a2 head_on_b2).
  rewrite <- surjective_pairing. apply head_on_collide_ok.
Defined.
